(** * Job rendezvous of [app/engine/objects.py]

    A shallow embedding of the [Job] document class: the process-wide
    registry [Job.job_wakeup_events], the wait loop
    [Job.wait_till_completed] and the result views
    [Job.host_command_result], [Job.rat_result], [Job.update_rats]. *)

From stdpp Require Import gmap strings list fin_maps.

Local Open Scope string_scope.
Local Set Warnings "-register-all".

(** ** Python values *)

(** The payload of [Job.action] is a document of nested dictionaries
    keyed by strings. *)
Inductive pyval : Type :=
| VNone
| VBool (b : bool)
| VInt (n : Z)
| VStr (s : string)
| VList (l : list pyval)
| VDict (d : gmap string pyval).

Abbreviation pydict := (gmap string pyval).

(** ** Schema records *)

Record Host := mkHost {
  fqdn : string;
  IP : string;
  hostname : string;
  host_status : string }.

Record Agent := mkAgent {
  agent_host : option Host;
  alive : bool }.

(** [asyncio.Event] objects live in a store; an event is known by its
    address, so that two references are the same object exactly when the
    addresses are equal. *)
Abbreviation event_ref := nat.

(** Identifiers handed to the registry: a [str], a [bson.ObjectId] (given
    by its 24-digit hexadecimal rendering, which is what [str] returns
    for it), or [None] for a document that was never saved. *)
Inductive py_id : Type :=
| IdStr (s : string)
| IdObjectId (hex : string)
| IdNone.

Record Job := mkJob {
  id : py_id;
  agent : option Agent;
  action : pydict;
  status : string;
  parser : option string;
  event : event_ref }.

Record HostCommand := mkHostCommand {
  hc_command_line : pyval;
  hc_output : pyval;
  hc_status : string;
  hc_host : option Host }.

Record RatCommand := mkRatCommand {
  rc_host : option Host;
  rc_status : string;
  rc_function : string;
  rc_parameters : pyval;
  rc_outputs : pyval;
  rc_agent : option Agent }.

(** ** Exceptions *)

Inductive exn_arg : Type :=
| ArgStr (s : string)
| ArgVal (v : pyval)
| ArgJob (j : Job).

Inductive exn : Type :=
| KeyError (key : string)
| AttributeError (attr : string)
| TypeError
| JobException (args : list exn_arg)
| Exception (msg : string)
| CaseException.

Inductive res (A : Type) : Type :=
| Ok (a : A)
| Raise (e : exn).

Arguments Ok {A} a.
Arguments Raise {A} e.

(** Exceptions propagate through sequencing; [x ← m; k] is stdpp's
    notation for the bind below. *)
#[global] Instance res_bind : MBind res := λ A B k m,
  match m with
  | Ok a => k a
  | Raise e => Raise e
  end.

(** ** The process-wide state *)

(** [job_wakeup_events] is the class attribute of [Job]; [events] holds
    the flag of every [asyncio.Event] allocated so far. *)
Record World := mkWorld {
  job_wakeup_events : gmap string event_ref;
  events : list bool }.

(** [str(job_id)] *)
Definition py_id_str (job_id : py_id) : string :=
  match job_id with
  | IdStr s => s
  | IdObjectId hex => hex
  | IdNone => "None"
  end.

(** [asyncio.Event()]: a new object, flag unset. *)
Definition Event_new (w : World) : event_ref * World :=
  (length (events w),
   mkWorld (job_wakeup_events w) (events w ++ [false])).

(** [e.set()] *)
Definition Event_set (e : event_ref) (w : World) : World :=
  mkWorld (job_wakeup_events w) (<[e := true]> (events w)).

(** [e.clear()] *)
Definition Event_clear (e : event_ref) (w : World) : World :=
  mkWorld (job_wakeup_events w) (<[e := false]> (events w)).

(** [e.is_set()] *)
Definition Event_is_set (e : event_ref) (w : World) : option bool :=
  events w !! e.

(** [Job._get_job_event] *)
Definition _get_job_event (job_id : py_id) (w : World) : event_ref * World :=
  let job_id := py_id_str job_id in
  match job_wakeup_events w !! job_id with
  | Some e => (e, w)
  | None =>
      let '(e, w) := Event_new w in
      (e, mkWorld (<[job_id := e]> (job_wakeup_events w)) (events w))
  end.

(** [Job.wakeup_job] *)
Definition wakeup_job (job_id : py_id) (w : World) : World :=
  let job_id := IdStr (py_id_str job_id) in
  let '(e, w) := _get_job_event job_id w in
  Event_set e w.

(** [Job.__init__]: the document fields come from the keyword arguments
    (status defaults to ['created']), then the event of the identifier is
    looked up in the registry. *)
Definition Job_init (job_id : py_id) (ag : option Agent) (act : pydict)
    (st : option string) (w : World) : Job * World :=
  let '(e, w) := _get_job_event job_id w in
  (mkJob job_id ag act (default "created" st) None e, w).

(** ** Operations on dictionaries and strings *)

(** [d[key]] on a [dict] *)
Definition dict_getitem (d : pydict) (key : string) : res pyval :=
  match d !! key with
  | Some v => Ok v
  | None => Raise (KeyError key)
  end.

(** [v[key]] on an arbitrary value with a string key: only a [dict] can
    be subscripted by a string. *)
Definition py_getitem (v : pyval) (key : string) : res pyval :=
  match v with
  | VDict d => dict_getitem d key
  | _ => Raise TypeError
  end.

(** [v == s] for a string literal [s] *)
Definition py_eq_str (v : pyval) (s : string) : bool :=
  match v with
  | VStr t => String.eqb t s
  | _ => false
  end.

(** [s in (t1, ..., tn)] for strings *)
Definition str_in (s : string) (ts : list string) : bool :=
  existsb (String.eqb s) ts.

(** [HostCommand()] and [RatCommand()] *)
Definition HostCommand_new : HostCommand :=
  mkHostCommand (VStr "") (VStr "") "" None.

Definition RatCommand_new : RatCommand :=
  mkRatCommand None "" "" (VDict ∅) (VDict ∅) None.

(** ** Result views *)

(** [self.agent.host] *)
Definition self_agent_host (self : Job) : res (option Host) :=
  match agent self with
  | Some a => Ok (agent_host a)
  | None => Raise (AttributeError "host")
  end.

(** [Job.host_command_result]. The second component is [self] after the
    call. *)
Definition host_command_result (self : Job) : res HostCommand * Job :=
  let hc := HostCommand_new in
  let hc := mkHostCommand (hc_command_line hc) (hc_output hc) (status self) (hc_host hc) in
  (h ← self_agent_host self;
   let hc := mkHostCommand (hc_command_line hc) (hc_output hc) (hc_status hc) h in
   hc ← match (ex ← dict_getitem (action self) "execute"; py_getitem ex "command_line") with
        | Ok cl => Ok (mkHostCommand cl (hc_output hc) (hc_status hc) (hc_host hc))
        | Raise (AttributeError _) | Raise (KeyError _) => Ok hc
        | Raise e => Raise e
        end;
   if String.eqb (status self) "success" then
     r ← dict_getitem (action self) "result";
     Ok (mkHostCommand (hc_command_line hc) r (hc_status hc) (hc_host hc))
   else Ok hc,
   self).

(** [Job.update_rats]. The second component is [ivc] after the call: the
    status is assigned before the case distinction, also when the call
    raises. *)
Definition update_rats (self : Job) (ivc : RatCommand) : res unit * RatCommand :=
  let ivc := mkRatCommand (rc_host ivc) (status self) (rc_function ivc)
               (rc_parameters ivc) (rc_outputs ivc) (rc_agent ivc) in
  if String.eqb (status self) "success" then
    match dict_getitem (action self) "result" with
    | Ok r => (Ok tt, mkRatCommand (rc_host ivc) (rc_status ivc) (rc_function ivc)
                        (rc_parameters ivc) r (rc_agent ivc))
    | Raise e => (Raise e, ivc)
    end
  else if str_in (status self) ["pending"; "created"; "failed"] then (Ok tt, ivc)
  else (Raise CaseException, ivc).

(** [Job.rat_result] *)
Definition rat_result (self : Job) : res RatCommand * Job :=
  let ivc := RatCommand_new in
  let ivc := mkRatCommand (rc_host ivc) (rc_status ivc) (rc_function ivc)
               (rc_parameters ivc) (rc_outputs ivc) (agent self) in
  (h ← self_agent_host self;
   let ivc := mkRatCommand h (rc_status ivc) (rc_function ivc)
                (rc_parameters ivc) (rc_outputs ivc) (rc_agent ivc) in
   rats ← dict_getitem (action self) "rats";
   p ← py_getitem rats "parameters";
   let ivc := mkRatCommand (rc_host ivc) (rc_status ivc) (rc_function ivc)
                p (rc_outputs ivc) (rc_agent ivc) in
   if bool_decide (is_Some (action self !! "rats")) then
     let '(r, ivc) := update_rats self ivc in
     _ ← r; Ok ivc
   else Raise (Exception "Getting rat result on non-rat job"),
   self).

(** ** Other tasks *)

(** While a waiter is suspended in [await], the event loop runs other
    tasks. What they can do to the registry and to the events is what
    this module offers: look an event up, wake a job up, construct a
    [Job], or clear an event (the last statement of another waiter's
    loop). *)
Inductive op : Type :=
| OpGetJobEvent (job_id : py_id)
| OpWakeupJob (job_id : py_id)
| OpJobInit (job_id : py_id) (ag : option Agent) (act : pydict) (st : option string)
| OpEventClear (e : event_ref).

Definition run_op (o : op) (w : World) : World :=
  match o with
  | OpGetJobEvent job_id => snd (_get_job_event job_id w)
  | OpWakeupJob job_id => wakeup_job job_id w
  | OpJobInit job_id ag act st => snd (Job_init job_id ag act st w)
  | OpEventClear e => Event_clear e w
  end.

Definition run_ops (os : list op) (w : World) : World :=
  foldl (λ w o, run_op o w) w os.

(** ** The wait loop *)

(** One round of the loop as the waiter sees it from outside: what the
    other tasks did while it was suspended in
    [asyncio.wait_for(event.wait(), timeout=10)] (which ends by the event
    being set or by the timeout, silently in both cases), and the
    [status] and [action] that [self.reload] then reads from the
    database. *)
Record round := mkRound {
  others : list op;
  db_status : string;
  db_action : pydict }.

(** [self.reload('status', 'action')] *)
Definition reload (r : round) (self : Job) : Job :=
  mkJob (id self) (agent self) (db_action r) (db_status r) (parser self) (event self).

(** What a call of the coroutine has come to once the rounds that were
    observed are used up: [None] when it is still suspended. *)
Record wait_outcome := mkWaitOutcome {
  wo_result : option (res unit);
  wo_self : Job;
  wo_world : World;
  wo_rounds : nat }.

Section Wait.

(** [str(v)] for a value that is not a string: the interpreter's
    builtin, which [str.format] falls back on. *)
Variable builtin_str : pyval → string.

(** ['{}'.format(v)] *)
Definition py_format (v : pyval) : string :=
  match v with
  | VStr s => s
  | _ => builtin_str v
  end.

(** The branch [elif self.status == 'failed':] of the loop. *)
Definition raise_failed (self : Job) : res unit :=
  err ← dict_getitem (action self) "error";
  if py_eq_str err "no client" then
    Raise (JobException [ArgStr "NoRatError";
                         ArgStr "Job failed because the rat was killed";
                         ArgJob self])
  else if py_eq_str err "agents exception" then
    exc ← dict_getitem (action self) "exception";
    Raise (JobException [ArgStr "AgentExceptionError"; ArgVal exc; ArgJob self])
  else
    Raise (JobException
             [ArgStr ("The action.error field in the job was not recognized: "
                      +:+ py_format err)]).

(** [while True: ...] *)
Fixpoint wait_loop (rounds : list round) (event : event_ref) (self : Job)
    (w : World) (n : nat) : wait_outcome :=
  match rounds with
  | [] => mkWaitOutcome None self w n
  | r :: rounds =>
      let w := run_ops (others r) w in
      let self := reload r self in
      if String.eqb (status self) "success" then
        mkWaitOutcome (Some (Ok tt)) self w (S n)
      else if String.eqb (status self) "failed" then
        mkWaitOutcome (Some (raise_failed self)) self w (S n)
      else
        wait_loop rounds event self (Event_clear event w) (S n)
  end.

(** [Job.wait_till_completed] *)
Definition wait_till_completed (rounds : list round) (self : Job) (w : World)
    : wait_outcome :=
  if str_in (status self) ["success"; "failure"] then
    mkWaitOutcome (Some (Ok tt)) self w 0
  else
    let '(event, w) := _get_job_event (id self) w in
    wait_loop rounds event self w 0.

End Wait.

(** ** Scenarios used below *)

Definition world0 : World := mkWorld ∅ [].

Definition host1 : Host := mkHost "ws1.corp.local" "10.0.0.5" "ws1" "active".
Definition agent1 : Agent := mkAgent (Some host1) true.
Definition oid1 : py_id := IdObjectId "5d1f0c2ab7e3a90001c4e6f1".

Definition act_no_client : pydict := {[ "error" := VStr "no client" ]}.
Definition act_agents_exception : pydict :=
  <[ "error" := VStr "agents exception" ]> {[ "exception" := VStr "boom" ]}.
Definition act_disk_full : pydict := {[ "error" := VStr "disk full" ]}.
Definition act_execute : pydict :=
  {[ "execute" := VDict {[ "command_line" := VStr "whoami" ]} ]}.
Definition act_result : pydict := {[ "result" := VStr "ok" ]}.

(** A job that had failed before anybody waited for it. *)
Definition job_failed : Job :=
  mkJob oid1 (Some agent1) act_no_client "failed" None 0.

(** A job for the host's agent, not for a rat. *)
Definition job_execute : Job :=
  mkJob oid1 (Some agent1) act_execute "success" None 0.

Definition job_pending : Job :=
  mkJob oid1 (Some agent1) act_execute "pending" None 0.



(** An instance of the builtin [str], exact on the constants; the
    scenarios format strings only. *)
Definition str_of_constant (v : pyval) : string :=
  match v with
  | VNone => "None"
  | VBool true => "True"
  | VBool false => "False"
  | _ => ""
  end.

(** A rat job that has succeeded, and one with a status outside the
    known ones. *)
Definition act_rats : pydict :=
  <[ "rats" := VDict {[ "parameters" := VDict {[ "path" := VStr "C:\\" ]} ]} ]>
    {[ "result" := VStr "ok" ]}.
Definition job_rat : Job := mkJob oid1 (Some agent1) act_rats "success" None 0.
Definition job_rat_created : Job := mkJob oid1 (Some agent1) act_rats "created" None 0.
Definition job_rat_odd : Job := mkJob oid1 (Some agent1) act_rats "failure" None 0.


Definition round_pending : round := mkRound [OpWakeupJob oid1] "pending" act_execute.
Definition round_no_client : round := mkRound [] "failed" act_no_client.
Definition round_agents_exception : round := mkRound [] "failed" act_agents_exception.
Definition round_disk_full : round := mkRound [] "failed" act_disk_full.

(** A round in which the job is seen neither succeeded nor failed. *)
Definition still_running (r : round) : bool :=
  negb (str_in (db_status r) ["success"; "failed"]).

(** ** Results that can also be an [IndexError] *)

(** Subscripting a sequence by position adds one exception to the ones
    above. *)
Inductive xres (A : Type) : Type :=
| XOk (a : A)
| XRaise (e : exn)
| XIndexError.

Arguments XOk {A} a.
Arguments XRaise {A} e.
Arguments XIndexError {A}.

#[global] Instance xres_bind : MBind xres := λ A B k m,
  match m with
  | XOk a => k a
  | XRaise e => XRaise e
  | XIndexError => XIndexError
  end.

Definition lift_res {A : Type} (m : res A) : xres A :=
  match m with
  | Ok a => XOk a
  | Raise e => XRaise e
  end.

(** [l[0]] *)
Definition list_getitem0 {A : Type} (l : list A) : xres A :=
  match l with
  | x :: _ => XOk x
  | [] => XIndexError
  end.

(** ** Strings *)

(** [s.split(c)] for a separator of one character: the pieces between
    the occurrences of [c], in order; one more piece than there are
    occurrences. *)
Fixpoint split_on (c : Ascii.ascii) (s : string) : list string :=
  match s with
  | EmptyString => [""]
  | String a s' =>
      if Ascii.eqb a c then "" :: split_on c s'
      else match split_on c s' with
           | piece :: pieces => String a piece :: pieces
           | [] => [String a ""]
           end
  end.

(** [sep.join(l)] *)
Fixpoint str_join (sep : string) (l : list string) : string :=
  match l with
  | [] => ""
  | [x] => x
  | x :: rest => x +:+ sep +:+ str_join sep rest
  end.

(** [c in s] for a character *)
Fixpoint str_contains (c : Ascii.ascii) (s : string) : bool :=
  match s with
  | EmptyString => false
  | String a s' => Ascii.eqb a c || str_contains c s'
  end.

(** The character ['.'] *)
Definition dot : Ascii.ascii :=
  Ascii.Ascii false true true true false true false false.

(** [v.split('.')]: only a [str] has the method. *)
Definition py_split_dot (v : pyval) : xres (list string) :=
  match v with
  | VStr s => XOk (split_on dot s)
  | _ => XRaise (AttributeError "split")
  end.

(** [key in d] *)
Definition dict_contains (d : pydict) (key : string) : bool :=
  bool_decide (is_Some (d !! key)).

(** ** [ObservedHost.__init__] *)

(** The keyword arguments as the constructor hands them on to
    [super().__init__]. *)
Definition ObservedHost_init (kwargs : pydict) : xres pydict :=
  kwargs ←
    (if negb (dict_contains kwargs "hostname") && dict_contains kwargs "fqdn" then
       fq ← lift_res (dict_getitem kwargs "fqdn");
       parts ← py_split_dot fq;
       h ← list_getitem0 parts;
       XOk (<["hostname" := VStr h]> kwargs)
     else XOk kwargs);
  kwargs ←
    (if negb (dict_contains kwargs "dns_domain_name") && dict_contains kwargs "fqdn" then
       fq ← lift_res (dict_getitem kwargs "fqdn");
       parts ← py_split_dot fq;
       XOk (<["dns_domain_name" := VStr (str_join "." (drop 1 parts))]> kwargs)
     else XOk kwargs);
  XOk kwargs.

(** [isinstance(v, str)] *)
Definition is_str (v : pyval) : bool :=
  match v with
  | VStr _ => true
  | _ => false
  end.

(** Keyword arguments of an observed host: the name alone, the name
    with a host name chosen by the caller, and a name that is [None]. *)
Definition kw_fqdn : pydict := {[ "fqdn" := VStr "ws1.corp.local" ]}.
Definition kw_fqdn_hostname : pydict :=
  <[ "hostname" := VStr "alias" ]> {[ "fqdn" := VStr "ws1.corp.local" ]}.
Definition kw_fqdn_none : pydict := {[ "fqdn" := VNone ]}.

(** [isinstance(v, dict)] *)
Definition is_dict (v : pyval) : bool :=
  match v with
  | VDict _ => true
  | _ => false
  end.

(** No event is registered under two identifiers. *)
Definition registry_inj (w : World) : Prop :=
  ∀ k1 k2 e,
    job_wakeup_events w !! k1 = Some e → job_wakeup_events w !! k2 = Some e → k1 = k2.

(** ** The factories *)

Record Rat := mkRat {
  rat_elevated : bool;
  rat_name : option Z;
  rat_host : option Host;
  rat_agent : option Agent;
  rat_executable : string;
  rat_username : string;
  rat_mode : string;
  rat_active : bool }.

(** The value of an [IntField] *)
Definition py_int (n : option Z) : pyval :=
  match n with
  | Some z => VInt z
  | None => VNone
  end.

Section Factories.

(** [Document.save] of the persistence layer, which hands the document
    back once it is stored, and the query [Agent.objects(host=host)]. *)
Variable save : Job → Job.
Variable Agent_objects : Host → list Agent.

(** [Job.create_rat_command]. The job is constructed from the keyword
    arguments [action] and [agent] alone: it has no identifier yet. *)
Definition create_rat_command (rat : Rat) (command : string) (params : pydict)
    (w : World) : res Job * World :=
  match rat_host rat with
  | None => (Raise (AttributeError "hostname"), w)
  | Some h =>
      let act : pydict :=
        {[ "rats" := VDict (<[ "hostname" := VStr (hostname h) ]>
                             (<[ "name" := py_int (rat_name rat) ]>
                               (<[ "function" := VStr command ]>
                                 {[ "parameters" := VDict params ]}))) ]} in
      let '(j, w) := Job_init IdNone (rat_agent rat) act None w in
      (Ok (save j), w)
  end.

(** [Job.create_agent_command] *)
Definition create_agent_command (host : Host) (command : string) (kwargs : pydict)
    (w : World) : xres Job * World :=
  match list_getitem0 (Agent_objects host) with
  | XOk agent =>
      let '(j, w) := Job_init IdNone (Some agent) {[ command := VDict kwargs ]} None w in
      (XOk (save j), w)
  | XRaise e => (XRaise e, w)
  | XIndexError => (XIndexError, w)
  end.

End Factories.

(** What the factories rely on: storing a job changes neither its
    agent, its payload and its status nor the event it holds. *)
Definition save_keeps (save : Job → Job) : Prop :=
  ∀ j, agent (save j) = agent j ∧ action (save j) = action j
       ∧ status (save j) = status j ∧ event (save j) = event j.

(** A persistence layer that gives every stored job the same
    identifier; enough for the scenarios. *)
Definition save_as (new_id : py_id) (j : Job) : Job :=
  mkJob (match id j with IdNone => new_id | i => i end)
        (agent j) (action j) (status j) (parser j) (event j).

Definition rat1 : Rat :=
  mkRat true (Some 1432%Z) (Some host1) (Some agent1) "rat.exe" "CORP\\alice" "rundll32" true.

(** ** [Operation.delete] *)

(** Documents are known by reference. *)
Abbreviation doc_ref := nat.

(** The two exceptions of mongoengine that [Operation.delete] catches. *)
Inductive mongo_error : Type :=
| DoesNotExist
| FieldDoesNotExist.

(** How a statement ends: normally, with one of the two exceptions
    above, or with another exception. *)
Inductive ending : Type :=
| Returned
| RaisedMongo (e : mongo_error)
| RaisedOther (e : exn).

(** Of an operation: itself, its log, its list fields by name
    ([getattr(self, field)], empty by default) and its jobs, each with
    the status it has. *)
Record Operation := mkOperation {
  op_self : doc_ref;
  op_log : doc_ref;
  op_lists : gmap string (list doc_ref);
  op_jobs : list (doc_ref * string) }.

Definition delete_fields : list string :=
  ["known_credentials"; "known_domains"; "known_files"; "known_hosts"; "known_rats";
   "known_schtasks"; "known_shares"; "known_timedeltas"; "known_users";
   "known_persistence"; "known_registry_keys"; "known_services"; "known_processes";
   "nonexistent_rats"].

Section OperationDelete.

(** [x.delete()] of the persistence layer: how the call on [x] ends,
    given the calls made before it. *)
Variable delete : list doc_ref → doc_ref → ending.

(** [try: x.delete() except (DoesNotExist, FieldDoesNotExist): pass]:
    the exception that gets out, if any. *)
Definition try_delete (calls : list doc_ref) (x : doc_ref) : option exn :=
  match delete calls x with
  | RaisedOther e => Some e
  | Returned | RaisedMongo _ => None
  end.

(** [for x in xs: try: x.delete() ...], with the calls made so far *)
Fixpoint delete_each (xs : list doc_ref) (calls : list doc_ref)
    : list doc_ref * option exn :=
  match xs with
  | [] => (calls, None)
  | x :: xs =>
      match try_delete calls x with
      | Some e => ((calls ++ [x])%list, Some e)
      | None => delete_each xs (calls ++ [x])%list
      end
  end.

(** [for field in delete_fields: for x in getattr(self, field): ...] *)
Fixpoint delete_known (self : Operation) (fields : list string) (calls : list doc_ref)
    : list doc_ref * option exn :=
  match fields with
  | [] => (calls, None)
  | field :: fields =>
      match delete_each (default [] (op_lists self !! field)) calls with
      | (calls, Some e) => (calls, Some e)
      | (calls, None) => delete_known self fields calls
      end
  end.

(** [for job in self.jobs: try: if job.status in ("success", "failed"): job.delete() ...] *)
Fixpoint delete_jobs (jobs : list (doc_ref * string)) (calls : list doc_ref)
    : list doc_ref * option exn :=
  match jobs with
  | [] => (calls, None)
  | (job, st) :: jobs =>
      if str_in st ["success"; "failed"] then
        match try_delete calls job with
        | Some e => ((calls ++ [job])%list, Some e)
        | None => delete_jobs jobs (calls ++ [job])%list
        end
      else delete_jobs jobs calls
  end.

(** [Operation.delete]: the documents [delete()] was called on, in
    order, and how the method ends. *)
Definition Operation_delete (self : Operation) : list doc_ref * ending :=
  match try_delete [] (op_log self) with
  | Some e => ([op_log self], RaisedOther e)
  | None =>
      match delete_known self delete_fields [op_log self] with
      | (calls, Some e) => (calls, RaisedOther e)
      | (calls, None) =>
          match delete_jobs (op_jobs self) calls with
          | (calls, Some e) => (calls, RaisedOther e)
          | (calls, None) => ((calls ++ [op_self self])%list, delete calls (op_self self))
          end
      end
  end.

End OperationDelete.

(** The documents [Operation.delete] means to delete, in order: the log,
    the members of the listed fields, the jobs that succeeded or failed,
    the operation. *)
Definition delete_plan (self : Operation) : list doc_ref :=
  (op_log self
   :: concat (map (λ field, default [] (op_lists self !! field)) delete_fields)
   ++ map fst (List.filter (λ js, str_in (snd js) ["success"; "failed"]) (op_jobs self))
   ++ [op_self self])%list.

(** A loop has gone through a part [done] of what it was to delete; when
    no exception got out, through all of it. *)
Definition went_through (plan calls calls' : list doc_ref) (r : option exn) : Prop :=
  ∃ done rest, plan = (done ++ rest)%list ∧ calls' = (calls ++ done)%list
               ∧ (r = None → rest = []).

(** An operation with a host, a device and three jobs, and a
    persistence layer in which the host is already gone. *)
Definition operation1 : Operation :=
  mkOperation 1 2
    (<[ "known_hosts" := [10] ]> {[ "known_devices" := [20] ]})
    [(30, "success"); (31, "pending"); (32, "failed")].

Definition delete1 (calls : list doc_ref) (x : doc_ref) : ending :=
  if Nat.eqb x 10 then RaisedMongo DoesNotExist else Returned.

(** A round in which no other task touched the registry or an event. *)
Definition quiet (r : round) : bool :=
  match others r with
  | [] => true
  | _ :: _ => false
  end.

(** ** The registry *)

(** Every event the registry holds has been allocated. *)
Definition registry_ok (w : World) : Prop :=
  map_Forall (λ _ e, e < length (events w)) (job_wakeup_events w).

Lemma registry_ok_world0 : registry_ok world0.
Proof. intros k e H. cbn in H. by rewrite lookup_empty in H. Qed.

Lemma get_job_event_hit (job_id : py_id) (w : World) (e : event_ref) :
  job_wakeup_events w !! py_id_str job_id = Some e →
  _get_job_event job_id w = (e, w).
Proof. intros H. unfold _get_job_event. by rewrite H. Qed.

Lemma get_job_event_miss (job_id : py_id) (w : World) :
  job_wakeup_events w !! py_id_str job_id = None →
  _get_job_event job_id w =
    (length (events w),
     mkWorld (<[py_id_str job_id := length (events w)]> (job_wakeup_events w))
             (events w ++ [false])).
Proof. intros H. unfold _get_job_event. by rewrite H. Qed.

Lemma get_job_event_stored (job_id : py_id) (w : World) :
  job_wakeup_events (snd (_get_job_event job_id w)) !! py_id_str job_id
  = Some (fst (_get_job_event job_id w)).
Proof.
  destruct (job_wakeup_events w !! py_id_str job_id) as [e|] eqn:H.
  - by rewrite (get_job_event_hit _ _ _ H).
  - rewrite (get_job_event_miss _ _ H). cbn. apply lookup_insert_eq.
Qed.

Lemma get_job_event_incl (job_id : py_id) (w : World) :
  job_wakeup_events w ⊆ job_wakeup_events (snd (_get_job_event job_id w)).
Proof.
  destruct (job_wakeup_events w !! py_id_str job_id) as [e|] eqn:H.
  - by rewrite (get_job_event_hit _ _ _ H).
  - rewrite (get_job_event_miss _ _ H). cbn. by apply insert_subseteq.
Qed.

Lemma get_job_event_ok (job_id : py_id) (w : World) :
  registry_ok w → registry_ok (snd (_get_job_event job_id w)).
Proof.
  intros Hok. destruct (job_wakeup_events w !! py_id_str job_id) as [e|] eqn:H.
  - by rewrite (get_job_event_hit _ _ _ H).
  - rewrite (get_job_event_miss _ _ H). intros k e. cbn.
    rewrite length_app. cbn. rewrite lookup_insert. case_decide.
    + intros [= <-]. lia.
    + intros Hk. apply Hok in Hk. lia.
Qed.

Lemma wakeup_job_unfold (job_id : py_id) (w : World) :
  wakeup_job job_id w
  = Event_set (fst (_get_job_event job_id w)) (snd (_get_job_event job_id w)).
Proof.
  unfold wakeup_job.
  change (_get_job_event (IdStr (py_id_str job_id)) w) with (_get_job_event job_id w).
  by destruct (_get_job_event job_id w).
Qed.

Lemma Job_init_world (job_id : py_id) ag act st (w : World) :
  snd (Job_init job_id ag act st w) = snd (_get_job_event job_id w).
Proof. unfold Job_init. by destruct (_get_job_event job_id w). Qed.

Lemma run_op_incl (o : op) (w : World) :
  job_wakeup_events w ⊆ job_wakeup_events (run_op o w).
Proof.
  destruct o; cbn.
  - apply get_job_event_incl.
  - rewrite wakeup_job_unfold. cbn. apply get_job_event_incl.
  - rewrite Job_init_world. apply get_job_event_incl.
  - done.
Qed.

Lemma run_op_ok (o : op) (w : World) : registry_ok w → registry_ok (run_op o w).
Proof.
  intros Hok. destruct o; cbn.
  - by apply get_job_event_ok.
  - rewrite wakeup_job_unfold. intros k e. cbn. rewrite length_insert.
    apply (get_job_event_ok job_id w Hok).
  - rewrite Job_init_world. by apply get_job_event_ok.
  - intros k e'. cbn. rewrite length_insert. apply Hok.
Qed.

Lemma run_ops_incl (os : list op) (w : World) :
  job_wakeup_events w ⊆ job_wakeup_events (run_ops os w).
Proof.
  revert w. induction os as [|o os IH]; intros w; cbn; [done|].
  etrans; [apply (run_op_incl o)|apply IH].
Qed.

Lemma run_ops_ok (os : list op) (w : World) :
  registry_ok w → registry_ok (run_ops os w).
Proof.
  revert w. induction os as [|o os IH]; intros w Hok; cbn; [done|].
  apply IH. by apply run_op_ok.
Qed.

(** Two identifiers never share an event. *)
Lemma registry_ok_fresh (job_id : py_id) (w : World) (k : string) (e : event_ref) :
  registry_ok w →
  job_wakeup_events w !! py_id_str job_id = None →
  job_wakeup_events w !! k = Some e →
  fst (_get_job_event job_id w) ≠ e.
Proof.
  intros Hok Hnone Hk. rewrite (get_job_event_miss _ _ Hnone). cbn.
  apply Hok in Hk. lia.
Qed.

(** C3: every lookup of one identifier, given as a string or as a
    non-string identifier with the same [str], returns the same event
    object, whatever the module does to the registry in between. A lookup
    that finds an entry returns it and changes nothing; a lookup that
    finds none allocates a new event, unset, and stores it under the
    normalised identifier. *)
Theorem get_job_event_identical (job_id job_id' : py_id) (os : list op) (w : World) :
  py_id_str job_id' = py_id_str job_id →
  let e := fst (_get_job_event job_id w) in
  let w1 := snd (_get_job_event job_id w) in
  let w2 := run_ops os w1 in
  _get_job_event job_id' w2 = (e, w2)
  ∧ job_wakeup_events w1 !! py_id_str job_id = Some e
  ∧ match job_wakeup_events w !! py_id_str job_id with
    | Some e0 => e = e0 ∧ w1 = w
    | None =>
        events w !! e = None
        ∧ Event_is_set e w1 = Some false
        ∧ job_wakeup_events w1 = <[py_id_str job_id := e]> (job_wakeup_events w)
    end.
Proof.
  intros Hstr e w1 w2. split_and!.
  - apply get_job_event_hit. rewrite Hstr.
    eapply lookup_weaken; [apply get_job_event_stored|apply run_ops_incl].
  - apply get_job_event_stored.
  - subst e w1. destruct (job_wakeup_events w !! py_id_str job_id) as [e0|] eqn:H.
    + by rewrite (get_job_event_hit _ _ _ H).
    + rewrite (get_job_event_miss _ _ H). cbn. split_and!.
      * by apply lookup_ge_None_2.
      * unfold Event_is_set. cbn. by rewrite lookup_app_r, Nat.sub_diag.
      * done.
Qed.

Lemma get_job_event_identical_witness :
  py_id_str (IdStr "5d1f0c2ab7e3a90001c4e6f1") = py_id_str oid1
  ∧ _get_job_event (IdStr "5d1f0c2ab7e3a90001c4e6f1")
      (run_ops [OpWakeupJob IdNone; OpEventClear 0]
         (snd (_get_job_event oid1 world0)))
    = (fst (_get_job_event oid1 world0),
       run_ops [OpWakeupJob IdNone; OpEventClear 0]
         (snd (_get_job_event oid1 world0))).
Proof.
  split; [reflexivity|].
  apply (get_job_event_identical oid1 (IdStr "5d1f0c2ab7e3a90001c4e6f1")
           [OpWakeupJob IdNone; OpEventClear 0] world0).
  reflexivity.
Defined.

(** C7: [wakeup_job] resolves the event of the identifier, under its
    string form, creating it when the registry has none, and sets it:
    afterwards the registry holds that event for the identifier and the
    event is set. *)
Theorem wakeup_job_sets_signal (job_id : py_id) (w : World) :
  registry_ok w →
  let e := fst (_get_job_event job_id w) in
  let w' := wakeup_job job_id w in
  job_wakeup_events w' !! py_id_str job_id = Some e
  ∧ Event_is_set e w' = Some true
  ∧ job_wakeup_events w' = job_wakeup_events (snd (_get_job_event job_id w)).
Proof.
  intros Hok e w'. subst e w'. rewrite wakeup_job_unfold. split_and!.
  - cbn. apply get_job_event_stored.
  - unfold Event_is_set. cbn. apply list_lookup_insert_eq.
    apply (get_job_event_ok job_id w Hok (py_id_str job_id)), get_job_event_stored.
  - done.
Qed.

Lemma wakeup_job_sets_signal_witness :
  registry_ok world0
  ∧ job_wakeup_events (wakeup_job oid1 world0) !! py_id_str oid1
    = Some (fst (_get_job_event oid1 world0))
  ∧ Event_is_set (fst (_get_job_event oid1 world0)) (wakeup_job oid1 world0)
    = Some true.
Proof.
  pose proof (wakeup_job_sets_signal oid1 world0 registry_ok_world0) as (H1 & H2 & _).
  split; [exact registry_ok_world0|]. split; [exact H1|exact H2].
Defined.

(** ** The wait loop *)

Lemma reload_reload (r r' : round) (self : Job) :
  reload r (reload r' self) = reload r self.
Proof. done. Qed.

Lemma still_running_eqb (r : round) :
  still_running r = true →
  String.eqb (db_status r) "success" = false
  ∧ String.eqb (db_status r) "failed" = false.
Proof.
  unfold still_running, str_in. cbn.
  destruct (String.eqb (db_status r) "success"), (String.eqb (db_status r) "failed");
    cbn; intros; done.
Qed.

Section WaitProperties.

Variable builtin_str : pyval → string.

Lemma wait_loop_incl (rounds : list round) (ev : event_ref) (self : Job)
    (w : World) (n : nat) :
  job_wakeup_events w
  ⊆ job_wakeup_events (wo_world (wait_loop builtin_str rounds ev self w n)).
Proof.
  revert self w n. induction rounds as [|r rounds IH]; intros self w n; cbn; [done|].
  repeat case_match; cbn; try apply run_ops_incl.
  etrans; [apply (run_ops_incl (others r))|].
  etrans; [|apply IH]. done.
Qed.

Lemma wait_till_completed_incl (rounds : list round) (self : Job) (w : World) :
  job_wakeup_events w
  ⊆ job_wakeup_events (wo_world (wait_till_completed builtin_str rounds self w)).
Proof.
  unfold wait_till_completed. case_match; [done|].
  pose proof (get_job_event_incl (id self) w) as Hg.
  destruct (_get_job_event (id self) w) as [ev w1]. cbn in Hg.
  etrans; [exact Hg|apply wait_loop_incl].
Qed.

(** Rounds in which the job is still running are passed over; the loop
    ends in the first round that shows it failed. *)
Lemma wait_loop_first_failed (pre : list round) (r : round) (post : list round)
    (ev : event_ref) (self : Job) (w : World) (n : nat) :
  forallb still_running pre = true →
  db_status r = "failed" →
  let out := wait_loop builtin_str (pre ++ r :: post) ev self w n in
  wo_result out = Some (raise_failed builtin_str (reload r self))
  ∧ wo_self out = reload r self
  ∧ wo_rounds out = S (n + length pre).
Proof.
  intros Hpre Hr. revert self w n Hpre.
  induction pre as [|a pre IH]; intros self w n Hpre; cbn.
  - rewrite Hr. cbn. split_and!; [done..|f_equal; lia].
  - cbn in Hpre. apply andb_prop in Hpre as [Ha Hpre].
    apply still_running_eqb in Ha as [-> ->].
    destruct (IH (reload a self) (Event_clear ev (run_ops (others a) w)) (S n) Hpre)
      as (H1 & H2 & H3).
    rewrite reload_reload in H1, H2. split_and!; [done..|]. rewrite H3. lia.
Qed.

Lemma wait_loop_first_success (pre : list round) (r : round) (post : list round)
    (ev : event_ref) (self : Job) (w : World) (n : nat) :
  forallb still_running pre = true →
  db_status r = "success" →
  let out := wait_loop builtin_str (pre ++ r :: post) ev self w n in
  wo_result out = Some (Ok tt)
  ∧ wo_self out = reload r self
  ∧ wo_rounds out = S (n + length pre).
Proof.
  intros Hpre Hr. revert self w n Hpre.
  induction pre as [|a pre IH]; intros self w n Hpre; cbn.
  - rewrite Hr. cbn. split_and!; [done..|f_equal; lia].
  - cbn in Hpre. apply andb_prop in Hpre as [Ha Hpre].
    apply still_running_eqb in Ha as [-> ->].
    destruct (IH (reload a self) (Event_clear ev (run_ops (others a) w)) (S n) Hpre)
      as (H1 & H2 & H3).
    rewrite reload_reload in H2. split_and!; [done..|]. rewrite H3. lia.
Qed.

Lemma wait_till_completed_slow (rounds : list round) (self : Job) (w : World) :
  str_in (status self) ["success"; "failure"] = false →
  wait_till_completed builtin_str rounds self w
  = wait_loop builtin_str rounds (fst (_get_job_event (id self) w)) self
      (snd (_get_job_event (id self) w)) 0.
Proof.
  intros H. unfold wait_till_completed. rewrite H.
  by destruct (_get_job_event (id self) w).
Qed.

(** The fast exit is taken for ['success']. *)
Lemma wait_till_completed_success (rounds : list round) (self : Job) (w : World) :
  status self = "success" →
  wait_till_completed builtin_str rounds self w = mkWaitOutcome (Some (Ok tt)) self w 0.
Proof. intros H. unfold wait_till_completed. by rewrite H. Qed.

(** It is not taken for ['failed']: the coroutine looks its event up and
    suspends. *)
Lemma wait_till_completed_failed_suspends (self : Job) (w : World) :
  status self = "failed" →
  wait_till_completed builtin_str [] self w
  = mkWaitOutcome None self (snd (_get_job_event (id self) w)) 0.
Proof.
  intros H. rewrite wait_till_completed_slow; [done|]. by rewrite H.
Qed.

Lemma raise_failed_reload (r : round) (self : Job) :
  raise_failed builtin_str (reload r self)
  = (err ← dict_getitem (db_action r) "error";
     if py_eq_str err "no client" then
       Raise (JobException [ArgStr "NoRatError";
                            ArgStr "Job failed because the rat was killed";
                            ArgJob (reload r self)])
     else if py_eq_str err "agents exception" then
       exc ← dict_getitem (db_action r) "exception";
       Raise (JobException [ArgStr "AgentExceptionError"; ArgVal exc;
                            ArgJob (reload r self)])
     else
       Raise (JobException
                [ArgStr ("The action.error field in the job was not recognized: "
                         +:+ py_format builtin_str err)])).
Proof. done. Qed.

(** C4: a waiter that is in the loop and reloads the job as ['failed']
    with [action['error'] == "no client"] raises
    [JobException("NoRatError", "Job failed because the rat was killed", self)]:
    the kind, the message and the job itself, as reloaded. *)
Theorem wait_raises_NoRatError (pre : list round) (r : round) (post : list round)
    (self : Job) (w : World) :
  str_in (status self) ["success"; "failure"] = false →
  forallb still_running pre = true →
  db_status r = "failed" →
  db_action r !! "error" = Some (VStr "no client") →
  let out := wait_till_completed builtin_str (pre ++ r :: post) self w in
  wo_result out
  = Some (Raise (JobException [ArgStr "NoRatError";
                               ArgStr "Job failed because the rat was killed";
                               ArgJob (wo_self out)]))
  ∧ wo_self out = reload r self
  ∧ wo_rounds out = S (length pre).
Proof.
  intros Hslow Hpre Hst Herr out. subst out.
  rewrite (wait_till_completed_slow _ _ _ Hslow).
  destruct (wait_loop_first_failed pre r post
              (fst (_get_job_event (id self) w)) self
              (snd (_get_job_event (id self) w)) 0 Hpre Hst) as (H1 & H2 & H3).
  rewrite H1, H2, H3, raise_failed_reload. unfold dict_getitem. rewrite Herr.
  done.
Qed.

(** C5: a waiter that is in the loop and reloads the job as ['failed']
    with [action['error'] == "agents exception"] raises
    [JobException("AgentExceptionError", action['exception'], self)]: the
    message is the value of the ['exception'] field, unchanged. *)
Theorem wait_raises_AgentExceptionError (pre : list round) (r : round)
    (post : list round) (self : Job) (w : World) (exc : pyval) :
  str_in (status self) ["success"; "failure"] = false →
  forallb still_running pre = true →
  db_status r = "failed" →
  db_action r !! "error" = Some (VStr "agents exception") →
  db_action r !! "exception" = Some exc →
  let out := wait_till_completed builtin_str (pre ++ r :: post) self w in
  wo_result out
  = Some (Raise (JobException [ArgStr "AgentExceptionError"; ArgVal exc;
                               ArgJob (wo_self out)]))
  ∧ wo_self out = reload r self
  ∧ wo_rounds out = S (length pre).
Proof.
  intros Hslow Hpre Hst Herr Hexc out. subst out.
  rewrite (wait_till_completed_slow _ _ _ Hslow).
  destruct (wait_loop_first_failed pre r post
              (fst (_get_job_event (id self) w)) self
              (snd (_get_job_event (id self) w)) 0 Hpre Hst) as (H1 & H2 & H3).
  rewrite H1, H2, H3, raise_failed_reload. unfold dict_getitem. rewrite Herr, Hexc.
  done.
Qed.

(** C6: a waiter that is in the loop and reloads the job as ['failed']
    with an ['error'] field that is neither ["no client"] nor
    ["agents exception"] raises a [JobException] with a single argument,
    the message, which ends in the formatted value of the field; for a
    string that is the string itself. *)
Theorem wait_raises_unrecognized (pre : list round) (r : round)
    (post : list round) (self : Job) (w : World) (err : pyval) :
  str_in (status self) ["success"; "failure"] = false →
  forallb still_running pre = true →
  db_status r = "failed" →
  db_action r !! "error" = Some err →
  py_eq_str err "no client" = false →
  py_eq_str err "agents exception" = false →
  let out := wait_till_completed builtin_str (pre ++ r :: post) self w in
  wo_result out
  = Some (Raise (JobException
                   [ArgStr ("The action.error field in the job was not recognized: "
                            +:+ py_format builtin_str err)]))
  ∧ (∀ s, err = VStr s → py_format builtin_str err = s)
  ∧ wo_self out = reload r self
  ∧ wo_rounds out = S (length pre).
Proof.
  intros Hslow Hpre Hst Herr Hn Ha out. subst out.
  rewrite (wait_till_completed_slow _ _ _ Hslow).
  destruct (wait_loop_first_failed pre r post
              (fst (_get_job_event (id self) w)) self
              (snd (_get_job_event (id self) w)) 0 Hpre Hst) as (H1 & H2 & H3).
  rewrite H1, H2, H3, raise_failed_reload. unfold dict_getitem. rewrite Herr.
  cbn. rewrite Hn, Ha. split_and!; [done| |done..].
  by intros s ->.
Qed.

(** C10: constructing a [Job], whatever its status, leaves the registry
    with an entry for the string form of its identifier, a new one when
    there was none; every operation of the module, the wait included,
    keeps the entries the registry has, so the set of registered
    identifiers only grows. *)
Theorem registry_only_grows :
  (∀ job_id ag act st w,
     let w' := snd (Job_init job_id ag act st w) in
     is_Some (job_wakeup_events w' !! py_id_str job_id)
     ∧ job_wakeup_events w'
       = match job_wakeup_events w !! py_id_str job_id with
         | Some _ => job_wakeup_events w
         | None => <[py_id_str job_id := length (events w)]> (job_wakeup_events w)
         end)
  ∧ (∀ os w,
       job_wakeup_events w ⊆ job_wakeup_events (run_ops os w)
       ∧ dom (job_wakeup_events w) ⊆ dom (job_wakeup_events (run_ops os w)))
  ∧ (∀ rounds self w,
       let w' := wo_world (wait_till_completed builtin_str rounds self w) in
       job_wakeup_events w ⊆ job_wakeup_events w'
       ∧ dom (job_wakeup_events w) ⊆ dom (job_wakeup_events w')).
Proof.
  split_and!.
  - intros job_id ag act st w w'. subst w'. rewrite Job_init_world. split.
    + rewrite get_job_event_stored. by eexists.
    + destruct (job_wakeup_events w !! py_id_str job_id) as [e|] eqn:H.
      * by rewrite (get_job_event_hit _ _ _ H).
      * by rewrite (get_job_event_miss _ _ H).
  - intros os w. split; [apply run_ops_incl|].
    apply subseteq_dom, run_ops_incl.
  - intros rounds self w w'. subst w'. split; [apply wait_till_completed_incl|].
    apply subseteq_dom, wait_till_completed_incl.
Qed.

End WaitProperties.

Lemma wait_raises_NoRatError_witness :
  (str_in (status job_pending) ["success"; "failure"] = false
   ∧ forallb still_running [round_pending] = true
   ∧ db_status round_no_client = "failed"
   ∧ db_action round_no_client !! "error" = Some (VStr "no client"))
  ∧ wo_result (wait_till_completed str_of_constant
                 [round_pending; round_no_client] job_pending world0)
    = Some (Raise (JobException
                     [ArgStr "NoRatError";
                      ArgStr "Job failed because the rat was killed";
                      ArgJob (mkJob oid1 (Some agent1) act_no_client "failed" None 0)])).
Proof.
  split; [by split_and!; reflexivity|].
  pose proof (wait_raises_NoRatError str_of_constant [round_pending] round_no_client []
                job_pending world0 eq_refl eq_refl eq_refl eq_refl) as (H1 & H2 & _).
  rewrite H2 in H1. exact H1.
Defined.

Lemma wait_raises_AgentExceptionError_witness :
  (str_in (status job_pending) ["success"; "failure"] = false
   ∧ forallb still_running [round_pending] = true
   ∧ db_status round_agents_exception = "failed"
   ∧ db_action round_agents_exception !! "error" = Some (VStr "agents exception")
   ∧ db_action round_agents_exception !! "exception" = Some (VStr "boom"))
  ∧ wo_result (wait_till_completed str_of_constant
                 [round_pending; round_agents_exception] job_pending world0)
    = Some (Raise (JobException
                     [ArgStr "AgentExceptionError"; ArgVal (VStr "boom");
                      ArgJob (mkJob oid1 (Some agent1) act_agents_exception
                                "failed" None 0)])).
Proof.
  split; [by split_and!; reflexivity|].
  pose proof (wait_raises_AgentExceptionError str_of_constant [round_pending]
                round_agents_exception [] job_pending world0 (VStr "boom")
                eq_refl eq_refl eq_refl eq_refl eq_refl) as (H1 & H2 & _).
  rewrite H2 in H1. exact H1.
Defined.

Lemma wait_raises_unrecognized_witness :
  (str_in (status job_pending) ["success"; "failure"] = false
   ∧ forallb still_running [round_pending] = true
   ∧ db_status round_disk_full = "failed"
   ∧ db_action round_disk_full !! "error" = Some (VStr "disk full")
   ∧ py_eq_str (VStr "disk full") "no client" = false
   ∧ py_eq_str (VStr "disk full") "agents exception" = false)
  ∧ wo_result (wait_till_completed str_of_constant
                 [round_pending; round_disk_full] job_pending world0)
    = Some (Raise (JobException
                     [ArgStr "The action.error field in the job was not recognized: disk full"])).
Proof.
  split; [by split_and!; reflexivity|].
  pose proof (wait_raises_unrecognized str_of_constant [round_pending]
                round_disk_full [] job_pending world0 (VStr "disk full")
                eq_refl eq_refl eq_refl eq_refl eq_refl eq_refl) as (H1 & _).
  exact H1.
Defined.

(** C1: the fast exit tests for ['success'] and ['failure']. A job that
    is already ['failed'] is not let through: the call looks its event up,
    which here adds an entry to the registry, and suspends; once it has
    reloaded the job it raises. *)
Theorem wait_failed_job_not_fast_exit :
  status job_failed = "failed"
  ∧ job_wakeup_events world0 !! py_id_str (id job_failed) = None
  ∧ (let out := wait_till_completed str_of_constant [] job_failed world0 in
     wo_result out = None
     ∧ job_wakeup_events (wo_world out) !! py_id_str (id job_failed) = Some 0)
  ∧ (let out := wait_till_completed str_of_constant [round_no_client] job_failed world0 in
     wo_result out
     = Some (Raise (JobException
                      [ArgStr "NoRatError";
                       ArgStr "Job failed because the rat was killed";
                       ArgJob job_failed]))
     ∧ wo_rounds out = 1
     ∧ job_wakeup_events (wo_world out) !! py_id_str (id job_failed) = Some 0).
Proof. cbv zeta. repeat split. Qed.

(** ** Result views *)

Lemma rat_result_missing_rats (self : Job) (a : Agent) :
  agent self = Some a →
  action self !! "rats" = None →
  rat_result self = (Raise (KeyError "rats"), self).
Proof.
  intros Ha Hr. unfold rat_result, self_agent_host, dict_getitem.
  by rewrite Ha, Hr.
Qed.

Lemma py_getitem_raises (v : pyval) (key : string) :
  (∃ x, py_getitem v key = Ok x)
  ∨ (∃ k, py_getitem v key = Raise (KeyError k))
  ∨ py_getitem v key = Raise TypeError.
Proof.
  destruct v; cbn; eauto. unfold dict_getitem. case_match; eauto.
Qed.

Lemma update_rats_never_Exception (self : Job) (ivc : RatCommand) (msg : string) :
  fst (update_rats self ivc) ≠ Raise (Exception msg).
Proof.
  unfold update_rats, dict_getitem. repeat case_match; cbn; congruence.
Qed.

(** C2: [rat_result] subscripts [self.action['rats']] before it tests
    ['rats' in self.action]. On a job without the key the subscript
    raises [KeyError('rats')]; the branch that raises
    [Exception('Getting rat result on non-rat job')] is never reached, on
    any job. *)
Theorem rat_result_non_rat_job_KeyError :
  action job_execute !! "rats" = None
  ∧ rat_result job_execute = (Raise (KeyError "rats"), job_execute)
  ∧ ∀ self : Job,
      fst (rat_result self) ≠ Raise (Exception "Getting rat result on non-rat job").
Proof.
  split_and!; [done..|].
  intros self. unfold rat_result, self_agent_host, dict_getitem. cbn.
  destruct (agent self) as [a|]; cbn; [|done].
  destruct (action self !! "rats") as [rats|] eqn:Hr; cbn; [|done].
  destruct (py_getitem_raises rats "parameters") as [[p ->]|[[k ->]| ->]]; cbn; [|done..].
  match goal with |- context [update_rats ?s ?i] =>
    pose proof (update_rats_never_Exception s i "Getting rat result on non-rat job") as Hu;
    destruct (update_rats s i) as [[[]|e] ivc] end; cbn in *; congruence.
Qed.

(** C8: [update_rats] assigns the job's status to the view and then goes
    by the status: for ['success'] the outputs become [action['result']];
    for ['pending'], ['created'] and ['failed'] the outputs stay as they
    were; for any other status it raises [CaseException]. *)
Theorem update_rats_cases (self : Job) (ivc : RatCommand) :
  is_Some (action self !! "rats") →
  rc_status (snd (update_rats self ivc)) = status self
  ∧ (∀ r, status self = "success" → action self !! "result" = Some r →
       update_rats self ivc
       = (Ok tt, mkRatCommand (rc_host ivc) "success" (rc_function ivc)
                   (rc_parameters ivc) r (rc_agent ivc)))
  ∧ (status self ∈ ["pending"; "created"; "failed"] →
       update_rats self ivc
       = (Ok tt, mkRatCommand (rc_host ivc) (status self) (rc_function ivc)
                   (rc_parameters ivc) (rc_outputs ivc) (rc_agent ivc)))
  ∧ (status self ∉ ["success"; "pending"; "created"; "failed"] →
       update_rats self ivc
       = (Raise CaseException,
          mkRatCommand (rc_host ivc) (status self) (rc_function ivc)
            (rc_parameters ivc) (rc_outputs ivc) (rc_agent ivc))).
Proof.
  intros _. split_and!.
  - unfold update_rats. repeat case_match; done.
  - intros r Hs Hr. unfold update_rats, dict_getitem. by rewrite Hs, Hr.
  - intros Hin. unfold update_rats, str_in.
    repeat (apply elem_of_cons in Hin as [->|Hin]); [done..|].
    by apply elem_of_nil in Hin.
  - intros Hnin. unfold update_rats, str_in. cbn.
    destruct (String.eqb_spec (status self) "success") as [E|_];
      [rewrite E in Hnin; set_solver|].
    destruct (String.eqb_spec (status self) "pending") as [E|_];
      [rewrite E in Hnin; set_solver|].
    destruct (String.eqb_spec (status self) "created") as [E|_];
      [rewrite E in Hnin; set_solver|].
    destruct (String.eqb_spec (status self) "failed") as [E|_];
      [rewrite E in Hnin; set_solver|].
    done.
Qed.

Lemma update_rats_cases_witness :
  is_Some (action job_rat !! "rats")
  ∧ update_rats job_rat RatCommand_new
    = (Ok tt, mkRatCommand None "success" "" (VDict ∅) (VStr "ok") None)
  ∧ update_rats job_rat_created RatCommand_new
    = (Ok tt, mkRatCommand None "created" "" (VDict ∅) (VDict ∅) None)
  ∧ update_rats job_rat_odd RatCommand_new
    = (Raise CaseException, mkRatCommand None "failure" "" (VDict ∅) (VDict ∅) None).
Proof.
  assert (is_Some (act_rats !! "rats")) as Hrats by (by eexists).
  split; [exact Hrats|]. split_and!.
  - apply (proj1 (proj2 (update_rats_cases job_rat RatCommand_new Hrats)) (VStr "ok"));
      reflexivity.
  - apply (proj1 (proj2 (proj2 (update_rats_cases job_rat_created RatCommand_new Hrats)))).
    cbn. apply elem_of_cons. right. apply elem_of_cons. by left.
  - apply (proj2 (proj2 (proj2 (update_rats_cases job_rat_odd RatCommand_new Hrats)))).
    cbn. intros Hin.
    repeat (apply elem_of_cons in Hin as [Hin|Hin]; [discriminate Hin|]).
    by apply elem_of_nil in Hin.
Defined.




(** ** Edges of the result views and of the loop *)

(** An ['execute'] entry that is not a dictionary makes the subscript
    raise [TypeError], which the [except] clause does not catch. *)
Example host_command_result_execute_not_dict :
  fst (host_command_result
         (mkJob oid1 (Some agent1) {[ "execute" := VStr "whoami" ]} "failed" None 0))
  = Raise TypeError.
Proof. reflexivity. Qed.

(** A job without an agent has no host to report. *)
Example host_command_result_no_agent :
  fst (host_command_result (mkJob oid1 None act_result "success" None 0))
  = Raise (AttributeError "host").
Proof. reflexivity. Qed.

(** A failed job reloaded without an ['error'] field, and one with
    ["agents exception"] but no ['exception'] field. *)
Example wait_failed_without_error_field :
  wo_result (wait_till_completed str_of_constant
               [mkRound [] "failed" act_result] job_pending world0)
  = Some (Raise (KeyError "error")).
Proof. reflexivity. Qed.

Example wait_agents_exception_without_text :
  wo_result (wait_till_completed str_of_constant
               [mkRound [] "failed" {[ "error" := VStr "agents exception" ]}]
               job_pending world0)
  = Some (Raise (KeyError "exception")).
Proof. reflexivity. Qed.

(** The scenario of a job that succeeds while the waiter sleeps; a job
    that stays pending keeps the waiter suspended, its event cleared. *)
Example wait_success_after_wakeup :
  wo_result (wait_till_completed str_of_constant
               [mkRound [OpWakeupJob oid1] "success" act_result] job_pending world0)
  = Some (Ok tt).
Proof. reflexivity. Qed.

Example wait_pending_stays_suspended :
  let out := wait_till_completed str_of_constant [round_pending; round_pending]
               job_pending world0 in
  wo_result out = None ∧ wo_rounds out = 2 ∧ Event_is_set 0 (wo_world out) = Some false.
Proof. cbv zeta. repeat split. Qed.

#[local] Set Warnings "-clear-no-such-hyp".

(** ** Splitting a fully qualified name *)

Lemma dot_string : String dot "" = ".".
Proof. reflexivity. Qed.

Lemma split_on_cons (c : Ascii.ascii) (s : string) :
  ∃ piece pieces, split_on c s = piece :: pieces.
Proof.
  induction s as [|a s IH]; cbn; [by eauto|].
  destruct IH as (p & ps & ->). destruct (Ascii.eqb a c); eauto.
Qed.

Lemma str_join_cons (sep x : string) (y : string) (l : list string) :
  str_join sep (x :: y :: l) = x +:+ sep +:+ str_join sep (y :: l).
Proof. done. Qed.

Lemma join_split_on (c : Ascii.ascii) (s : string) :
  str_join (String c "") (split_on c s) = s.
Proof.
  induction s as [|a s IH]; [done|]. cbn [split_on].
  destruct (Ascii.eqb_spec a c) as [->|Hne].
  - destruct (split_on_cons c s) as (p & ps & Hs). rewrite Hs in *.
    rewrite str_join_cons, IH. done.
  - destruct (split_on_cons c s) as (p & ps & Hs). rewrite Hs in *.
    destruct ps as [|q ps].
    + cbn in *. by rewrite IH.
    + rewrite str_join_cons in *. cbn. by rewrite <- IH.
Qed.

Lemma split_on_head_clean (c : Ascii.ascii) (s piece : string) (pieces : list string) :
  split_on c s = piece :: pieces → str_contains c piece = false.
Proof.
  revert piece pieces. induction s as [|a s IH]; intros piece pieces; cbn.
  - by intros [= <- <-].
  - destruct (Ascii.eqb a c) eqn:Hac.
    + by intros [= <- <-].
    + destruct (split_on_cons c s) as (p & ps & Hs). rewrite Hs.
      intros [= <- <-]. cbn. rewrite Hac. by apply (IH p ps).
Qed.

Lemma split_on_clean (c : Ascii.ascii) (s : string) :
  str_contains c s = false → split_on c s = [s].
Proof.
  induction s as [|a s IH]; cbn; [done|].
  destruct (Ascii.eqb a c); cbn; [done|]. intros H. by rewrite (IH H).
Qed.

Lemma split_on_dirty (c : Ascii.ascii) (s : string) :
  str_contains c s = true → ∃ p q qs, split_on c s = p :: q :: qs.
Proof.
  induction s as [|a s IH]; cbn; [done|].
  destruct (Ascii.eqb a c); cbn.
  - intros _. destruct (split_on_cons c s) as (p & ps & ->). eauto.
  - intros H. destruct (IH H) as (p & q & qs & ->). eauto.
Qed.

Lemma dict_contains_Some (d : pydict) (key : string) (v : pyval) :
  d !! key = Some v → dict_contains d key = true.
Proof. intros H. apply bool_decide_eq_true_2. eauto. Qed.

Lemma dict_contains_None (d : pydict) (key : string) :
  d !! key = None → dict_contains d key = false.
Proof.
  intros H. apply bool_decide_eq_false_2. rewrite H. by intros [? ?].
Qed.

Lemma dict_contains_insert_ne (d : pydict) (k key : string) (v : pyval) :
  k ≠ key → dict_contains (<[k := v]> d) key = dict_contains d key.
Proof. intros H. unfold dict_contains. by rewrite lookup_insert_ne. Qed.

(** ** [ObservedHost.__init__] *)

(** X1: from a fully qualified name alone the constructor derives both
    the host name and the domain name; the host name has no dot, and the
    two put the name back together: joined by a dot when the name has
    one, else the host name is the whole name and the domain name is
    empty. All other keyword arguments are passed on as given. *)
Theorem ObservedHost_init_derives (kwargs : pydict) (s : string) :
  kwargs !! "fqdn" = Some (VStr s) →
  kwargs !! "hostname" = None →
  kwargs !! "dns_domain_name" = None →
  ∃ h d,
    ObservedHost_init kwargs
    = XOk (<["dns_domain_name" := VStr d]> (<["hostname" := VStr h]> kwargs))
    ∧ str_contains dot h = false
    ∧ s = (if str_contains dot s then h +:+ "." +:+ d else h)
    ∧ (str_contains dot s = false → d = "").
Proof.
  intros Hf Hh Hd. unfold ObservedHost_init.
  rewrite (dict_contains_None _ _ Hh), (dict_contains_Some _ _ _ Hf). cbn.
  unfold dict_getitem. rewrite Hf. cbn.
  destruct (split_on_cons dot s) as (p & ps & Hs). rewrite Hs. cbn.
  rewrite !dict_contains_insert_ne by done.
  rewrite (dict_contains_None _ _ Hd), (dict_contains_Some _ _ _ Hf). cbn.
  rewrite lookup_insert_ne by done. rewrite Hf. cbn. rewrite Hs. cbn.
  rewrite drop_0. exists p, (str_join "." ps). split_and!; [done| | |].
  - by apply (split_on_head_clean dot s p ps).
  - pose proof (join_split_on dot s) as Hj. rewrite Hs, dot_string in Hj.
    destruct (str_contains dot s) eqn:Hc.
    + apply split_on_dirty in Hc as (p' & q & qs & Hs'). rewrite Hs in Hs'.
      injection Hs' as -> ->. by rewrite str_join_cons in Hj.
    + apply split_on_clean in Hc. rewrite Hs in Hc. injection Hc as -> ->. done.
  - intros Hc. apply split_on_clean in Hc. rewrite Hs in Hc. by injection Hc as -> ->.
Qed.

Lemma ObservedHost_init_derives_witness :
  (kw_fqdn !! "fqdn" = Some (VStr "ws1.corp.local")
   ∧ kw_fqdn !! "hostname" = None
   ∧ kw_fqdn !! "dns_domain_name" = None)
  ∧ ∃ h d,
      ObservedHost_init kw_fqdn
      = XOk (<["dns_domain_name" := VStr d]> (<["hostname" := VStr h]> kw_fqdn))
      ∧ str_contains dot h = false
      ∧ "ws1.corp.local"
        = (if str_contains dot "ws1.corp.local" then h +:+ "." +:+ d else h)
      ∧ (str_contains dot "ws1.corp.local" = false → d = "").
Proof.
  split; [by split_and!; reflexivity|].
  apply (ObservedHost_init_derives kw_fqdn "ws1.corp.local"); reflexivity.
Defined.

Example ObservedHost_init_fqdn :
  ObservedHost_init kw_fqdn
  = XOk (<["dns_domain_name" := VStr "corp.local"]> (<["hostname" := VStr "ws1"]> kw_fqdn)).
Proof. reflexivity. Qed.

Example ObservedHost_init_trailing_dot :
  ObservedHost_init {[ "fqdn" := VStr "ws1." ]}
  = XOk (<["dns_domain_name" := VStr ""]>
           (<["hostname" := VStr "ws1"]> {[ "fqdn" := VStr "ws1." ]})).
Proof. reflexivity. Qed.

Lemma dict_contains_negb (d : pydict) (key : string) :
  negb (dict_contains d key) = true → d !! key = None.
Proof.
  unfold dict_contains. intros H. apply negb_true_iff, bool_decide_eq_false in H.
  destruct (d !! key); [|done]. destruct H. eauto.
Qed.

(** The two assignments of the constructor, one at a time. *)
Lemma ObservedHost_init_step (key : string) (kwargs : pydict)
    (f : list string → xres string) (r : xres pydict) :
  r = (if negb (dict_contains kwargs key) && dict_contains kwargs "fqdn" then
         fq ← lift_res (dict_getitem kwargs "fqdn");
         parts ← py_split_dot fq;
         h ← f parts;
         XOk (<[key := VStr h]> kwargs)
       else XOk kwargs) →
  ∀ kw', r = XOk kw' →
    kwargs ⊆ kw' ∧ dom kw' ⊆ dom kwargs ∪ {[ key ]}
    ∧ (kwargs !! "fqdn" = None → kw' = kwargs).
Proof.
  intros -> kw'. destruct (negb (dict_contains kwargs key)) eqn:Hk; cbn.
  - apply dict_contains_negb in Hk.
    destruct (dict_contains kwargs "fqdn") eqn:Hf; cbn.
    + unfold dict_getitem. destruct (kwargs !! "fqdn") as [fq|] eqn:Hfq; cbn; [|done].
      destruct (py_split_dot fq) as [parts| |]; cbn; [|done..].
      destruct (f parts) as [h| |]; cbn; [|done..].
      intros [= <-]. split_and!.
      * by apply insert_subseteq.
      * rewrite dom_insert_L. by rewrite (comm_L (∪)).
      * done.
    + intros [= <-]. split_and!; [done|apply union_subseteq_l|done].
  - intros [= <-]. split_and!; [done|apply union_subseteq_l|done].
Qed.

(** X2: the constructor never replaces or drops a keyword argument the
    caller gave; the only keys it can add are ['hostname'] and
    ['dns_domain_name']; without ['fqdn'] it adds nothing. *)
Theorem ObservedHost_init_keeps (kwargs kw' : pydict) :
  ObservedHost_init kwargs = XOk kw' →
  kwargs ⊆ kw'
  ∧ dom kw' ⊆ dom kwargs ∪ {[ "hostname"; "dns_domain_name" ]}
  ∧ (kwargs !! "fqdn" = None → kw' = kwargs).
Proof.
  unfold ObservedHost_init.
  destruct (if negb (dict_contains kwargs "hostname") && dict_contains kwargs "fqdn"
            then _ else _) as [k1| |] eqn:H1; cbn; [|done..].
  destruct (ObservedHost_init_step "hostname" kwargs list_getitem0 _ (eq_sym H1) k1 eq_refl)
    as (Ha & Hb & Hc).
  destruct (if negb (dict_contains k1 "dns_domain_name") && dict_contains k1 "fqdn"
            then _ else _) as [k2| |] eqn:H2; cbn; [|done..].
  destruct (ObservedHost_init_step "dns_domain_name" k1
              (λ parts, XOk (str_join "." (drop 1 parts))) _ (eq_sym H2) k2 eq_refl)
    as (Ha' & Hb' & Hc').
  intros [= <-]. split_and!.
  - by etrans.
  - set_solver.
  - intros Hf. specialize (Hc Hf). subst k1. by apply Hc'.
Qed.

Lemma ObservedHost_init_keeps_witness :
  ObservedHost_init kw_fqdn_hostname
  = XOk (<["dns_domain_name" := VStr "corp.local"]> kw_fqdn_hostname)
  ∧ kw_fqdn_hostname ⊆ <["dns_domain_name" := VStr "corp.local"]> kw_fqdn_hostname.
Proof.
  split; [reflexivity|].
  apply (ObservedHost_init_keeps kw_fqdn_hostname
           (<["dns_domain_name" := VStr "corp.local"]> kw_fqdn_hostname)).
  reflexivity.
Defined.

(** X3: a ['fqdn'] that is not a string (for one, [None]) makes the
    constructor raise [AttributeError] as soon as it has a name to
    derive; when the caller gave both names the ['fqdn'] is not looked at
    and the arguments go through unchanged. *)
Theorem ObservedHost_init_fqdn_not_str (kwargs : pydict) (v : pyval) :
  kwargs !! "fqdn" = Some v →
  is_str v = false →
  ObservedHost_init kwargs
  = (if dict_contains kwargs "hostname" && dict_contains kwargs "dns_domain_name"
     then XOk kwargs
     else XRaise (AttributeError "split")).
Proof.
  intros Hf Hv. unfold ObservedHost_init.
  rewrite (dict_contains_Some _ _ _ Hf). unfold dict_getitem. rewrite Hf.
  assert (py_split_dot v = XRaise (AttributeError "split")) as Hsplit
    by (by destruct v).
  destruct (dict_contains kwargs "hostname"); cbn; rewrite ?Hsplit; cbn; [|done].
  rewrite (dict_contains_Some _ _ _ Hf), Hf.
  destruct (dict_contains kwargs "dns_domain_name"); cbn; rewrite ?Hsplit; done.
Qed.

Lemma ObservedHost_init_fqdn_not_str_witness :
  (kw_fqdn_none !! "fqdn" = Some VNone ∧ is_str VNone = false)
  ∧ ObservedHost_init kw_fqdn_none = XRaise (AttributeError "split").
Proof.
  split; [by split|].
  apply (ObservedHost_init_fqdn_not_str kw_fqdn_none VNone); reflexivity.
Defined.

(** X4: the statements of the constructor that come before
    [super().__init__], run on keyword arguments whose values are
    document values, never fail at the subscript [[0]]: either they hand
    the arguments on, or ['fqdn'] is not a string and the [split] raises
    [AttributeError]. *)
Theorem ObservedHost_init_only_AttributeError (kwargs : pydict) :
  (∃ kw', ObservedHost_init kwargs = XOk kw')
  ∨ (ObservedHost_init kwargs = XRaise (AttributeError "split")
     ∧ ∃ v, kwargs !! "fqdn" = Some v ∧ is_str v = false).
Proof.
  destruct (kwargs !! "fqdn") as [v|] eqn:Hf.
  - destruct (is_str v) eqn:Hv.
    + destruct v; try done. left.
      unfold ObservedHost_init. rewrite (dict_contains_Some _ _ _ Hf).
      unfold dict_getitem. rewrite Hf.
      destruct (split_on_cons dot s) as (p & ps & Hs).
      destruct (dict_contains kwargs "hostname") eqn:Hh; cbn; rewrite ?Hs; cbn.
      * rewrite (dict_contains_Some _ _ _ Hf), Hf.
        destruct (dict_contains kwargs "dns_domain_name"); cbn; eauto.
      * rewrite !dict_contains_insert_ne, lookup_insert_ne by done.
        rewrite (dict_contains_Some _ _ _ Hf), Hf.
        destruct (dict_contains kwargs "dns_domain_name"); cbn; eauto.
    + rewrite (ObservedHost_init_fqdn_not_str kwargs v Hf Hv).
      destruct (dict_contains kwargs "hostname" && dict_contains kwargs "dns_domain_name");
        [left|right]; eauto.
  - left. exists kwargs. unfold ObservedHost_init.
    rewrite (dict_contains_None _ _ Hf), !andb_false_r. cbn.
    by rewrite (dict_contains_None _ _ Hf), !andb_false_r.
Qed.

(** ** More on the result views *)

(** X5: on a rat job with an agent and a ['parameters'] entry,
    [rat_result] returns a view with the agent, the agent's host, the
    parameters and the job's status; the outputs are [action['result']]
    for ['success'] and stay the empty dictionary for ['pending'],
    ['created'] and ['failed']; the view's [function] is never filled in.
    Any other status makes it raise [CaseException]. *)
Theorem rat_result_view (self : Job) (a : Agent) (rats : pydict) (p : pyval) :
  agent self = Some a →
  action self !! "rats" = Some (VDict rats) →
  rats !! "parameters" = Some p →
  (∀ r, status self = "success" → action self !! "result" = Some r →
     rat_result self
     = (Ok (mkRatCommand (agent_host a) "success" "" p r (Some a)), self))
  ∧ (str_in (status self) ["pending"; "created"; "failed"] = true →
       rat_result self
       = (Ok (mkRatCommand (agent_host a) (status self) "" p (VDict ∅) (Some a)), self))
  ∧ (str_in (status self) ["success"; "pending"; "created"; "failed"] = false →
       rat_result self = (Raise CaseException, self)).
Proof.
  intros Ha Hr Hp. unfold rat_result, self_agent_host, dict_getitem.
  rewrite Ha, Hr. cbn. unfold dict_getitem. rewrite Hp. cbn.
  unfold update_rats, dict_getitem. split_and!.
  - intros r Hs Hres. by rewrite Hs, Hres.
  - intros Hs. cbn in Hs.
    destruct (String.eqb_spec (status self) "success") as [E|_]; [by rewrite E in Hs|].
    unfold str_in. cbn. by rewrite Hs.
  - unfold str_in. cbn. intros Hs. apply orb_false_elim in Hs as [-> Hs].
    by rewrite Hs.
Qed.

Lemma rat_result_view_witness :
  (agent job_rat = Some agent1
   ∧ action job_rat !! "rats" = Some (VDict {[ "parameters" := VDict {[ "path" := VStr "C:\\" ]} ]})
   ∧ ({[ "parameters" := VDict {[ "path" := VStr "C:\\" ]} ]} : pydict) !! "parameters"
     = Some (VDict {[ "path" := VStr "C:\\" ]}))
  ∧ rat_result job_rat
    = (Ok (mkRatCommand (Some host1) "success" "" (VDict {[ "path" := VStr "C:\\" ]})
             (VStr "ok") (Some agent1)), job_rat)
  ∧ rat_result job_rat_created
    = (Ok (mkRatCommand (Some host1) "created" "" (VDict {[ "path" := VStr "C:\\" ]})
             (VDict ∅) (Some agent1)), job_rat_created)
  ∧ rat_result job_rat_odd = (Raise CaseException, job_rat_odd).
Proof.
  split; [by split_and!; reflexivity|]. split_and!.
  - apply (proj1 (rat_result_view job_rat agent1 _ _ eq_refl eq_refl eq_refl) (VStr "ok"));
      reflexivity.
  - apply (proj1 (proj2 (rat_result_view job_rat_created agent1 _ _ eq_refl eq_refl eq_refl)));
      reflexivity.
  - apply (proj2 (proj2 (rat_result_view job_rat_odd agent1 _ _ eq_refl eq_refl eq_refl)));
      reflexivity.
Defined.

(** X6: [host_command_result] can fail in three ways only: the job has
    no agent ([AttributeError]), the ['execute'] entry is there but is
    not a dictionary ([TypeError]), or the job succeeded without a
    ['result'] ([KeyError]). A missing ['execute'] or ['command_line'] key
    is never an error, and the job is returned as it was whatever
    happens. *)
Theorem host_command_result_raises (self : Job) (e : exn) :
  fst (host_command_result self) = Raise e →
  snd (host_command_result self) = self
  ∧ ((e = AttributeError "host" ∧ agent self = None)
     ∨ (e = TypeError
        ∧ ∃ v, action self !! "execute" = Some v ∧ is_dict v = false)
     ∨ (e = KeyError "result"
        ∧ status self = "success" ∧ action self !! "result" = None)).
Proof.
  unfold host_command_result, self_agent_host, dict_getitem. cbn.
  destruct (agent self) as [a|]; cbn; [|intros [= <-]; eauto].
  intros H. split; [done|]. right. revert H.
  destruct (action self !! "execute") as [v|] eqn:Hex; cbn.
  - destruct v as [| | | | |d]; cbn;
      try (intros [= <-]; left; split; [done|]; eexists; split; done).
    unfold dict_getitem. destruct (d !! "command_line"); cbn.
    all: destruct (String.eqb_spec (status self) "success") as [Hs|]; [|done].
    all: destruct (action self !! "result"); cbn; [done|].
    all: intros [= <-]; right; done.
  - destruct (String.eqb_spec (status self) "success") as [Hs|]; [|done].
    destruct (action self !! "result"); cbn; [done|].
    intros [= <-]; right; done.
Qed.

Lemma host_command_result_raises_witness :
  fst (host_command_result (mkJob oid1 (Some agent1) act_execute "success" None 0))
  = Raise (KeyError "result")
  ∧ ((KeyError "result" = AttributeError "host" ∧ Some agent1 = None)
     ∨ (KeyError "result" = TypeError
        ∧ ∃ v, act_execute !! "execute" = Some v ∧ is_dict v = false)
     ∨ (KeyError "result" = KeyError "result"
        ∧ "success" = "success" ∧ act_execute !! "result" = None)).
Proof.
  split; [reflexivity|].
  apply (host_command_result_raises
           (mkJob oid1 (Some agent1) act_execute "success" None 0) (KeyError "result")).
  reflexivity.
Defined.

(** ** More on the registry *)

Lemma get_job_event_inj (job_id : py_id) (w : World) :
  registry_ok w → registry_inj w → registry_inj (snd (_get_job_event job_id w)).
Proof.
  intros Hok Hinj. destruct (job_wakeup_events w !! py_id_str job_id) as [e|] eqn:H.
  - by rewrite (get_job_event_hit _ _ _ H).
  - rewrite (get_job_event_miss _ _ H). intros k1 k2 e. cbn.
    rewrite !lookup_insert. repeat case_decide; subst; try done.
    + intros [= <-] Hk. apply Hok in Hk. lia.
    + intros Hk [= <-]. apply Hok in Hk. lia.
    + apply Hinj.
Qed.

Lemma run_op_inj (o : op) (w : World) :
  registry_ok w → registry_inj w → registry_inj (run_op o w).
Proof.
  intros Hok Hinj. destruct o; cbn.
  - by apply get_job_event_inj.
  - rewrite wakeup_job_unfold. by apply (get_job_event_inj job_id).
  - rewrite Job_init_world. by apply get_job_event_inj.
  - done.
Qed.

Lemma run_ops_inj (os : list op) (w : World) :
  registry_ok w → registry_inj w → registry_inj (run_ops os w).
Proof.
  revert w. induction os as [|o os IH]; intros w Hok Hinj; cbn; [done|].
  apply IH; [by apply run_op_ok|by apply run_op_inj].
Qed.

Lemma registry_inj_world0 : registry_inj world0.
Proof. intros k1 k2 e H. cbn in H. by rewrite lookup_empty in H. Qed.

Lemma get_job_event_events (job_id : py_id) (w : World) :
  ∃ tail : list bool, events (snd (_get_job_event job_id w)) = (events w ++ tail)%list.
Proof.
  destruct (job_wakeup_events w !! py_id_str job_id) as [e|] eqn:H.
  - rewrite (get_job_event_hit _ _ _ H). exists []. by rewrite app_nil_r.
  - rewrite (get_job_event_miss _ _ H). by eexists.
Qed.

Lemma run_op_length (o : op) (w : World) :
  (length (events w) ≤ length (events (run_op o w)))%nat.
Proof.
  destruct o; cbn.
  - destruct (get_job_event_events job_id w) as [t ->]. rewrite length_app. lia.
  - rewrite wakeup_job_unfold. cbn. rewrite length_insert.
    destruct (get_job_event_events job_id w) as [t ->]. rewrite length_app. lia.
  - rewrite Job_init_world.
    destruct (get_job_event_events job_id w) as [t ->]. rewrite length_app. lia.
  - by rewrite length_insert.
Qed.

Lemma run_ops_length (os : list op) (w : World) :
  (length (events w) ≤ length (events (run_ops os w)))%nat.
Proof.
  revert w. induction os as [|o os IH]; intros w; cbn; [done|].
  etrans; [apply (run_op_length o)|apply IH].
Qed.



Lemma wakeup_job_other_event (job_id : py_id) (w : World) (k : string) (e : event_ref) :
  registry_ok w →
  registry_inj w →
  job_wakeup_events w !! k = Some e →
  k ≠ py_id_str job_id →
  job_wakeup_events (wakeup_job job_id w) !! k = Some e
  ∧ Event_is_set e (wakeup_job job_id w) = Event_is_set e w.
Proof.
  intros Hok Hinj Hk Hne. rewrite wakeup_job_unfold. cbn. split.
  - eapply lookup_weaken; [exact Hk|apply get_job_event_incl].
  - unfold Event_is_set. cbn.
    assert (fst (_get_job_event job_id w) ≠ e) as Hdiff.
    { intros Heq. apply Hne.
      apply (get_job_event_inj job_id w Hok Hinj k (py_id_str job_id) e).
      - eapply lookup_weaken; [exact Hk|apply get_job_event_incl].
      - rewrite <- Heq. apply get_job_event_stored. }
    rewrite list_lookup_insert_ne by done.
    destruct (get_job_event_events job_id w) as [t ->].
    apply lookup_app_l. by apply (Hok k).
Qed.

(** X8: waking one job up leaves the event of every other identifier as
    it was, in the registry and in its flag. *)
Theorem wakeup_job_isolated (job_id : py_id) (w : World) (k : string) (e : event_ref) :
  registry_ok w →
  registry_inj w →
  job_wakeup_events w !! k = Some e →
  k ≠ py_id_str job_id →
  job_wakeup_events (wakeup_job job_id w) !! k = Some e
  ∧ Event_is_set e (wakeup_job job_id w) = Event_is_set e w.
Proof.
  intros Hok Hinj Hk Hne. rewrite wakeup_job_unfold. cbn.
  assert (job_wakeup_events (snd (_get_job_event job_id w)) !! k = Some e) as Hk'
    by (eapply lookup_weaken; [exact Hk|apply get_job_event_incl]).
  split; [exact Hk'|].
  unfold Event_is_set. cbn. rewrite list_lookup_insert_ne.
  - destruct (get_job_event_events job_id w) as [t ->].
    apply lookup_app_l. by apply (Hok k).
  - intros Heq. apply Hne.
    apply (get_job_event_inj job_id w Hok Hinj k (py_id_str job_id) e Hk').
    rewrite <- Heq. apply get_job_event_stored.
Qed.

Lemma wakeup_job_isolated_witness :
  (registry_ok (wakeup_job IdNone world0)
   ∧ registry_inj (wakeup_job IdNone world0)
   ∧ job_wakeup_events (wakeup_job IdNone world0) !! "None" = Some 0
   ∧ "None" ≠ py_id_str oid1)
  ∧ job_wakeup_events (wakeup_job oid1 (wakeup_job IdNone world0)) !! "None" = Some 0
  ∧ Event_is_set 0 (wakeup_job oid1 (wakeup_job IdNone world0))
    = Event_is_set 0 (wakeup_job IdNone world0).
Proof.
  assert (registry_ok (wakeup_job IdNone world0)) as Hok
    by apply (run_ops_ok [OpWakeupJob IdNone] world0 registry_ok_world0).
  assert (registry_inj (wakeup_job IdNone world0)) as Hinj
    by apply (run_ops_inj [OpWakeupJob IdNone] world0 registry_ok_world0 registry_inj_world0).
  split; [by split_and!|].
  apply (wakeup_job_isolated oid1 (wakeup_job IdNone world0) "None" 0 Hok Hinj); done.
Defined.

(** X9: waking a job up twice, under the same identifier or under two
    that have the same string form, is the same as waking it up once. *)
Theorem wakeup_job_idempotent (job_id job_id' : py_id) (w : World) :
  py_id_str job_id' = py_id_str job_id →
  wakeup_job job_id' (wakeup_job job_id w) = wakeup_job job_id w.
Proof.
  intros Hstr. rewrite (wakeup_job_unfold job_id').
  assert (job_wakeup_events (wakeup_job job_id w) !! py_id_str job_id'
          = Some (fst (_get_job_event job_id w))) as Hhit.
  { rewrite Hstr, wakeup_job_unfold. cbn. apply get_job_event_stored. }
  rewrite (get_job_event_hit _ _ _ Hhit). cbn.
  rewrite wakeup_job_unfold. unfold Event_set. cbn.
  by rewrite list_insert_insert_eq.
Qed.

Lemma wakeup_job_idempotent_witness :
  py_id_str (IdStr "5d1f0c2ab7e3a90001c4e6f1") = py_id_str oid1
  ∧ wakeup_job (IdStr "5d1f0c2ab7e3a90001c4e6f1") (wakeup_job oid1 world0)
    = wakeup_job oid1 world0.
Proof.
  split; [reflexivity|].
  apply (wakeup_job_idempotent oid1 (IdStr "5d1f0c2ab7e3a90001c4e6f1") world0).
  reflexivity.
Defined.

(** ** More on the wait loop *)

Lemma Event_clear_ok (e : event_ref) (w : World) :
  registry_ok w → registry_ok (Event_clear e w).
Proof. intros Hok k e'. cbn. rewrite length_insert. apply Hok. Qed.

Section WaitOutcomes.

Variable builtin_str : pyval → string.

Lemma raise_failed_raises (self : Job) :
  ∃ e, raise_failed builtin_str self = Raise e
       ∧ ((∃ k, e = KeyError k) ∨ (∃ args, e = JobException args)).
Proof.
  unfold raise_failed, dict_getitem.
  destruct (action self !! "error") as [err|]; cbn; [|by eauto].
  destruct (py_eq_str err "no client"); [by eauto|].
  destruct (py_eq_str err "agents exception"); [|by eauto].
  destruct (action self !! "exception"); cbn; eauto.
Qed.

Lemma wait_loop_outcome (rounds : list round) (ev : event_ref) (self : Job)
    (w : World) (n : nat) :
  let out := wait_loop builtin_str rounds ev self w n in
  match wo_result out with
  | Some (Ok _) => n < wo_rounds out ∧ status (wo_self out) = "success"
  | Some (Raise e) =>
      n < wo_rounds out ∧ status (wo_self out) = "failed"
      ∧ raise_failed builtin_str (wo_self out) = Raise e
  | None => wo_rounds out = n + length rounds ∧ forallb still_running rounds = true
  end
  ∧ (wo_rounds out ≤ n + length rounds)%nat
  ∧ id (wo_self out) = id self
  ∧ agent (wo_self out) = agent self
  ∧ event (wo_self out) = event self.
Proof.
  revert self w n. induction rounds as [|r rounds IH]; intros self w n; cbn.
  - split_and!; try done; lia.
  - destruct (String.eqb_spec (db_status r) "success") as [Hs|Hs]; cbn.
    { split_and!; try done; lia. }
    destruct (String.eqb_spec (db_status r) "failed") as [Hf|Hf]; cbn.
    { destruct (raise_failed_raises (reload r self)) as (e & He & _).
      rewrite He. split_and!; try done; lia. }
    specialize (IH (reload r self) (Event_clear ev (run_ops (others r) w)) (S n)).
    cbn in IH. destruct IH as (H1 & H2 & H3 & H4 & H5).
    split_and!; [|lia|done..].
    destruct (wo_result _) as [[[]|e]|].
    + destruct H1. split; [lia|done].
    + destruct H1 as (? & ? & ?). split_and!; [lia|done..].
    + destruct H1 as [-> Hall]. split; [lia|].
      unfold still_running at 1, str_in. cbn.
      apply String.eqb_neq in Hs, Hf. by rewrite Hs, Hf.
Qed.

Lemma wait_loop_all_running (rounds : list round) (ev : event_ref) (self : Job)
    (w : World) (n : nat) :
  forallb still_running rounds = true →
  wo_result (wait_loop builtin_str rounds ev self w n) = None
  ∧ wo_rounds (wait_loop builtin_str rounds ev self w n) = n + length rounds.
Proof.
  revert self w n. induction rounds as [|r rounds IH]; intros self w n Hall; cbn.
  - split; [done|lia].
  - cbn in Hall. apply andb_prop in Hall as [Hr Hall].
    apply still_running_eqb in Hr as [-> ->].
    destruct (IH (reload r self) (Event_clear ev (run_ops (others r) w)) (S n) Hall)
      as [H1 H2].
    split; [done|]. rewrite H2. lia.
Qed.

Lemma not_still_running (r : round) :
  still_running r = false → db_status r = "success" ∨ db_status r = "failed".
Proof.
  unfold still_running, str_in. cbn.
  destruct (String.eqb_spec (db_status r) "success"); [by left|].
  destruct (String.eqb_spec (db_status r) "failed"); [by right|done].
Qed.

(** X10: what a call of [wait_till_completed] comes to, by the rounds
    it goes through. For a job that is ['success'] or ['failure'] on
    entry it returns at once and leaves job and registry alone. Otherwise
    it is suspended exactly when every reload so far showed a status
    other than ['success'] and ['failed'], and has then used all the
    rounds. The first reload that shows one of the two ends it in that
    round with the job as reloaded: it returns for ['success'], and for
    ['failed'] it raises what the failed branch raises, a [KeyError] or
    a [JobException]. It never changes the job's identifier, agent or
    event. *)
Theorem wait_till_completed_outcome (rounds : list round) (self : Job) (w : World) :
  let out := wait_till_completed builtin_str rounds self w in
  (str_in (status self) ["success"; "failure"] = true →
   out = mkWaitOutcome (Some (Ok tt)) self w 0)
  ∧ (str_in (status self) ["success"; "failure"] = false →
     (wo_result out = None ↔ forallb still_running rounds = true)
     ∧ (wo_result out = None → wo_rounds out = length rounds)
     ∧ (∀ pre r post,
          rounds = (pre ++ r :: post)%list →
          forallb still_running pre = true →
          still_running r = false →
          wo_self out = reload r self
          ∧ wo_rounds out = S (length pre)
          ∧ ((db_status r = "success" ∧ wo_result out = Some (Ok tt))
             ∨ (db_status r = "failed"
                ∧ wo_result out = Some (raise_failed builtin_str (reload r self))
                ∧ ∃ e, raise_failed builtin_str (reload r self) = Raise e
                       ∧ ((∃ k, e = KeyError k) ∨ (∃ args, e = JobException args))))))
  ∧ (wo_rounds out ≤ length rounds)%nat
  ∧ id (wo_self out) = id self
  ∧ agent (wo_self out) = agent self
  ∧ event (wo_self out) = event self.
Proof.
  cbv zeta. split; [|split].
  - intros Hfast. unfold wait_till_completed. by rewrite Hfast.
  - intros Hslow. rewrite (wait_till_completed_slow _ _ _ _ Hslow).
    set (ev := fst (_get_job_event (id self) w)).
    set (w1 := snd (_get_job_event (id self) w)).
    split_and!.
    + split.
      * intros Hnone. pose proof (wait_loop_outcome rounds ev self w1 0) as H.
        cbv zeta in H. rewrite Hnone in H. by destruct H as ((_ & Hall) & _).
      * intros Hall. by apply wait_loop_all_running.
    + intros Hnone. pose proof (wait_loop_outcome rounds ev self w1 0) as H.
      cbv zeta in H. rewrite Hnone in H. by destruct H as ((-> & _) & _).
    + intros pre r post -> Hpre Hr.
      destruct (not_still_running r Hr) as [Hs|Hf].
      * destruct (wait_loop_first_success builtin_str pre r post ev self w1 0 Hpre Hs)
          as (H1 & H2 & H3).
        split_and!; [done..|]. by left.
      * destruct (wait_loop_first_failed builtin_str pre r post ev self w1 0 Hpre Hf)
          as (H1 & H2 & H3).
        split_and!; [done..|]. right. split_and!; [done..|].
        apply raise_failed_raises.
  - destruct (str_in (status self) ["success"; "failure"]) eqn:Hfast.
    + unfold wait_till_completed. rewrite Hfast. cbn. split_and!; [lia|done..].
    + rewrite (wait_till_completed_slow _ _ _ _ Hfast).
      pose proof (wait_loop_outcome rounds (fst (_get_job_event (id self) w)) self
                    (snd (_get_job_event (id self) w)) 0) as H.
      cbv zeta in H. by destruct H as (_ & H2 & H3 & H4 & H5).
Qed.

Lemma wait_loop_suspended (rounds : list round) (ev : event_ref) (self : Job)
    (w : World) (n : nat) :
  ev < length (events w) →
  wo_result (wait_loop builtin_str rounds ev self w n) = None →
  (rounds = [] ∧ wo_world (wait_loop builtin_str rounds ev self w n) = w)
  ∨ Event_is_set ev (wo_world (wait_loop builtin_str rounds ev self w n)) = Some false.
Proof.
  revert self w n. induction rounds as [|r rounds IH]; intros self w n Hev; cbn.
  - intros _. by left.
  - destruct (String.eqb (db_status r) "success"); [done|].
    destruct (String.eqb (db_status r) "failed"); [done|].
    intros Hnone. right.
    assert (ev < length (events (run_ops (others r) w))) as Hev'.
    { pose proof (run_ops_length (others r) w). lia. }
    destruct (IH (reload r self) (Event_clear ev (run_ops (others r) w)) (S n))
      as [[-> Hw]|Hc]; [by cbn; rewrite length_insert|done| |done].
    cbn. unfold Event_is_set. cbn. by apply list_lookup_insert_eq.
Qed.

(** X11: a waiter that is suspended after at least one round has left
    its event cleared: a wake-up that came before the status was seen to
    change is used up, and only a later wake-up or the timeout ends the
    next wait. *)
Theorem wait_suspended_event_cleared (r : round) (rounds : list round)
    (self : Job) (w : World) :
  registry_ok w →
  wo_result (wait_till_completed builtin_str (r :: rounds) self w) = None →
  Event_is_set (fst (_get_job_event (id self) w))
    (wo_world (wait_till_completed builtin_str (r :: rounds) self w))
  = Some false.
Proof.
  intros Hok. destruct (str_in (status self) ["success"; "failure"]) eqn:Hfast.
  - unfold wait_till_completed. by rewrite Hfast.
  - rewrite (wait_till_completed_slow _ _ _ _ Hfast). intros Hnone.
    destruct (wait_loop_suspended (r :: rounds) (fst (_get_job_event (id self) w)) self
                (snd (_get_job_event (id self) w)) 0) as [[? _]|H]; [|done..].
    apply (get_job_event_ok (id self) w Hok (py_id_str (id self))).
    apply get_job_event_stored.
Qed.

Lemma wait_loop_wf (rounds : list round) (ev : event_ref) (self : Job)
    (w : World) (n : nat) :
  registry_ok w → registry_inj w →
  registry_ok (wo_world (wait_loop builtin_str rounds ev self w n))
  ∧ registry_inj (wo_world (wait_loop builtin_str rounds ev self w n)).
Proof.
  revert self w n. induction rounds as [|r rounds IH]; intros self w n Hok Hinj; cbn;
    [done|].
  pose proof (run_ops_ok (others r) w Hok) as Hok'.
  pose proof (run_ops_inj (others r) w Hok Hinj) as Hinj'.
  repeat case_match; cbn; try done.
  apply IH; [by apply Event_clear_ok|done].
Qed.

(** X12: the wait keeps the registry sound: afterwards every registered
    event still exists and no two identifiers share one. *)
Theorem wait_till_completed_registry_sound (rounds : list round) (self : Job)
    (w : World) :
  registry_ok w →
  registry_inj w →
  registry_ok (wo_world (wait_till_completed builtin_str rounds self w))
  ∧ registry_inj (wo_world (wait_till_completed builtin_str rounds self w)).
Proof.
  intros Hok Hinj. unfold wait_till_completed. case_match; [done|].
  pose proof (get_job_event_ok (id self) w Hok) as Hok'.
  pose proof (get_job_event_inj (id self) w Hok Hinj) as Hinj'.
  destruct (_get_job_event (id self) w) as [ev w1]. by apply wait_loop_wf.
Qed.

End WaitOutcomes.

Lemma wait_suspended_event_cleared_witness :
  (registry_ok world0
   ∧ wo_result (wait_till_completed str_of_constant [round_pending] job_pending world0)
     = None)
  ∧ Event_is_set 0
      (wo_world (wait_till_completed str_of_constant [round_pending] job_pending world0))
    = Some false.
Proof.
  split; [split; [exact registry_ok_world0|reflexivity]|].
  apply (wait_suspended_event_cleared str_of_constant round_pending [] job_pending world0
           registry_ok_world0).
  reflexivity.
Defined.

Lemma wait_till_completed_registry_sound_witness :
  (registry_ok world0 ∧ registry_inj world0)
  ∧ registry_ok (wo_world (wait_till_completed str_of_constant
                             [round_pending; round_no_client] job_pending world0))
  ∧ registry_inj (wo_world (wait_till_completed str_of_constant
                              [round_pending; round_no_client] job_pending world0)).
Proof.
  split; [split; [exact registry_ok_world0|exact registry_inj_world0]|].
  apply (wait_till_completed_registry_sound str_of_constant
           [round_pending; round_no_client] job_pending world0
           registry_ok_world0 registry_inj_world0).
Defined.

(** ** The factories *)

Lemma save_as_keeps (new_id : py_id) : save_keeps (save_as new_id).
Proof. intros j. done. Qed.

Lemma Job_init_None (ag : option Agent) (act : pydict) (st : option string) (w : World) :
  Job_init IdNone ag act st w
  = (mkJob IdNone ag act (default "created" st) None (fst (_get_job_event IdNone w)),
     snd (_get_job_event IdNone w)).
Proof. unfold Job_init. by destruct (_get_job_event IdNone w). Qed.

(** X13: a job made by [create_rat_command] for a rat that has a host
    and an agent is a rat job: [rat_result] on it returns the parameters
    the caller gave, the status ['created'], no outputs, the rat's agent
    and that agent's host; the payload names the function and the rat's
    host name. *)
Theorem create_rat_command_rat_result (save : Job → Job) (rat : Rat)
    (command : string) (params : pydict) (w : World) (h : Host) (a : Agent) :
  save_keeps save →
  rat_host rat = Some h →
  rat_agent rat = Some a →
  let j := save (fst (Job_init IdNone (Some a)
                        {[ "rats" := VDict (<[ "hostname" := VStr (hostname h) ]>
                                             (<[ "name" := py_int (rat_name rat) ]>
                                               (<[ "function" := VStr command ]>
                                                 {[ "parameters" := VDict params ]}))) ]}
                        None w)) in
  create_rat_command save rat command params w = (Ok j, snd (_get_job_event IdNone w))
  ∧ rat_result j
    = (Ok (mkRatCommand (agent_host a) "created" "" (VDict params) (VDict ∅) (Some a)), j)
  ∧ (rats ← dict_getitem (action j) "rats"; py_getitem rats "function") = Ok (VStr command)
  ∧ (rats ← dict_getitem (action j) "rats"; py_getitem rats "hostname")
    = Ok (VStr (hostname h)).
Proof.
  intros Hsave Hh Ha j. subst j. unfold create_rat_command. rewrite Hh, Ha.
  rewrite Job_init_None. cbn.
  set (j0 := mkJob _ _ _ _ _ _). destruct (Hsave j0) as (Hag & Hact & Hst & _).
  split_and!; [done| | |].
  - unfold rat_result, self_agent_host, update_rats, dict_getitem.
    rewrite Hag, Hact, Hst. done.
  - unfold dict_getitem. rewrite Hact. done.
  - unfold dict_getitem. rewrite Hact. done.
Qed.

Lemma create_rat_command_rat_result_witness :
  (save_keeps (save_as oid1) ∧ rat_host rat1 = Some host1 ∧ rat_agent rat1 = Some agent1)
  ∧ rat_result (save_as oid1
                  (fst (Job_init IdNone (Some agent1)
                          {[ "rats" := VDict (<[ "hostname" := VStr "ws1" ]>
                                               (<[ "name" := VInt 1432 ]>
                                                 (<[ "function" := VStr "dir" ]>
                                                   {[ "parameters" := VDict ∅ ]}))) ]}
                          None world0)))
    = (Ok (mkRatCommand (Some host1) "created" "" (VDict ∅) (VDict ∅) (Some agent1)),
       save_as oid1
         (fst (Job_init IdNone (Some agent1)
                 {[ "rats" := VDict (<[ "hostname" := VStr "ws1" ]>
                                      (<[ "name" := VInt 1432 ]>
                                        (<[ "function" := VStr "dir" ]>
                                          {[ "parameters" := VDict ∅ ]}))) ]}
                 None world0))).
Proof.
  split; [split_and!; [apply save_as_keeps|reflexivity..]|].
  apply (create_rat_command_rat_result (save_as oid1) rat1 "dir" ∅ world0 host1 agent1
           (save_as_keeps oid1) eq_refl eq_refl).
Defined.

(** X14: a job made by [create_agent_command] goes to the first agent
    the query returns for the host. [host_command_result] on it reports
    that agent's host, the status ['created'] and no output; the command
    line is the ['command_line'] argument when the command is ['execute']
    and that argument was given, and is empty otherwise. *)
Theorem create_agent_command_host_command_result (save : Job → Job)
    (Agent_objects : Host → list Agent) (host : Host) (command : string)
    (kwargs : pydict) (w : World) (a : Agent) (rest : list Agent) :
  save_keeps save →
  Agent_objects host = a :: rest →
  let j := save (fst (Job_init IdNone (Some a) {[ command := VDict kwargs ]} None w)) in
  create_agent_command save Agent_objects host command kwargs w
  = (XOk j, snd (_get_job_event IdNone w))
  ∧ host_command_result j
    = (Ok (mkHostCommand
             (if String.eqb command "execute"
              then default (VStr "") (kwargs !! "command_line")
              else VStr "")
             (VStr "") "created" (agent_host a)), j).
Proof.
  intros Hsave Hq j. subst j. unfold create_agent_command. rewrite Hq. cbn.
  rewrite Job_init_None. cbn.
  set (j0 := mkJob _ _ _ _ _ _). destruct (Hsave j0) as (Hag & Hact & Hst & _).
  split; [done|].
  unfold host_command_result, self_agent_host, dict_getitem. rewrite Hag, Hact, Hst. cbn.
  destruct (String.eqb_spec command "execute") as [->|Hne].
  - rewrite lookup_singleton_eq. cbn. unfold dict_getitem.
    by destruct (kwargs !! "command_line").
  - by rewrite lookup_singleton_ne.
Qed.

Lemma create_agent_command_host_command_result_witness :
  (save_keeps (save_as oid1) ∧ (λ _ : Host, [agent1]) host1 = [agent1])
  ∧ host_command_result
      (save_as oid1
         (fst (Job_init IdNone (Some agent1)
                 {[ "execute" := VDict {[ "command_line" := VStr "whoami" ]} ]}
                 None world0)))
    = (Ok (mkHostCommand (VStr "whoami") (VStr "") "created" (Some host1)),
       save_as oid1
         (fst (Job_init IdNone (Some agent1)
                 {[ "execute" := VDict {[ "command_line" := VStr "whoami" ]} ]}
                 None world0))).
Proof.
  split; [split; [apply save_as_keeps|reflexivity]|].
  exact (proj2 (create_agent_command_host_command_result (save_as oid1) (λ _, [agent1])
                  host1 "execute" {[ "command_line" := VStr "whoami" ]} world0 agent1 []
                  (save_as_keeps oid1) eq_refl)).
Defined.

(** X15: a factory that cannot build its job fails before it constructs
    one: for a rat without a host [create_rat_command] raises
    [AttributeError], for a host without an agent [create_agent_command]
    raises [IndexError], and in both cases nothing is stored and the
    registry is as before. *)
Theorem factories_fail_before_construction (save : Job → Job)
    (Agent_objects : Host → list Agent) (rat : Rat) (host : Host)
    (command : string) (args : pydict) (w : World) :
  rat_host rat = None →
  Agent_objects host = [] →
  create_rat_command save rat command args w = (Raise (AttributeError "hostname"), w)
  ∧ create_agent_command save Agent_objects host command args w = (XIndexError, w).
Proof.
  intros Hh Hq. unfold create_rat_command, create_agent_command. by rewrite Hh, Hq.
Qed.

Lemma factories_fail_before_construction_witness :
  (rat_host (mkRat false None None (Some agent1) "" "" "" true) = None
   ∧ (λ _ : Host, @nil Agent) host1 = [])
  ∧ create_rat_command (save_as oid1) (mkRat false None None (Some agent1) "" "" "" true)
      "dir" ∅ world0
    = (Raise (AttributeError "hostname"), world0)
  ∧ create_agent_command (save_as oid1) (λ _, []) host1 "execute" ∅ world0
    = (XIndexError, world0).
Proof.
  split; [by split|].
  apply (factories_fail_before_construction (save_as oid1) (λ _, [])
           (mkRat false None None (Some agent1) "" "" "" true) host1 "dir" ∅ world0);
    reflexivity.
Defined.

Lemma Job_init_None_event (ag : option Agent) (act : pydict) (st : option string)
    (w : World) (job_id : py_id) :
  registry_ok w →
  registry_inj w →
  py_id_str job_id ≠ "None" →
  let j := fst (Job_init IdNone ag act st w) in
  let w' := snd (Job_init IdNone ag act st w) in
  job_wakeup_events w' !! "None" = Some (event j)
  ∧ fst (_get_job_event job_id w') ≠ event j
  ∧ Event_is_set (event j) (wakeup_job job_id w') = Event_is_set (event j) w'.
Proof.
  intros Hok Hinj Hne j w'. subst j w'. rewrite Job_init_None. cbn.
  pose proof (get_job_event_stored IdNone w) as Hst. cbn in Hst.
  pose proof (get_job_event_ok IdNone w Hok) as Hok'.
  pose proof (get_job_event_inj IdNone w Hok Hinj) as Hinj'.
  split_and!; [done| |].
  - intros Heq. apply Hne. symmetry.
    apply (get_job_event_inj job_id _ Hok' Hinj' "None" (py_id_str job_id)
             (fst (_get_job_event IdNone w))).
    + eapply lookup_weaken; [exact Hst|apply get_job_event_incl].
    + rewrite <- Heq. apply get_job_event_stored.
  - by apply (wakeup_job_other_event job_id _ "None").
Qed.

(** X16: the factories construct the job before the persistence layer
    gives it an identifier, so the event the job holds in [self.event] is
    the one registered under ['None'], shared by every job made this way.
    It is not the event of the job's identifier: waking the job up by its
    identifier leaves [self.event] as it was. *)
Theorem factory_job_event_is_None_event (save : Job → Job) (rat : Rat)
    (command : string) (params : pydict) (w : World) (h : Host) (job_id : py_id) :
  save_keeps save →
  registry_ok w →
  registry_inj w →
  rat_host rat = Some h →
  py_id_str job_id ≠ "None" →
  ∃ j w',
    create_rat_command save rat command params w = (Ok j, w')
    ∧ job_wakeup_events w' !! "None" = Some (event j)
    ∧ fst (_get_job_event job_id w') ≠ event j
    ∧ Event_is_set (event j) (wakeup_job job_id w') = Event_is_set (event j) w'
    ∧ (∀ command' params',
         ∃ j', fst (create_rat_command save rat command' params' w') = Ok j'
               ∧ event j' = event j).
Proof.
  intros Hsave Hok Hinj Hh Hne. unfold create_rat_command. rewrite Hh.
  rewrite Job_init_None. eexists _, _. split; [done|].
  set (j0 := mkJob _ _ _ _ _ _). destruct (Hsave j0) as (_ & _ & _ & ->).
  pose proof (Job_init_None_event (rat_agent rat) (action j0) None w job_id Hok Hinj Hne)
    as H.
  cbv zeta in H. rewrite Job_init_None in H. cbn in H. destruct H as (H1 & H2 & H3).
  split_and!; [done..|].
  intros command' params'. rewrite Job_init_None. eexists. split; [done|].
  match goal with |- event (save ?j1) = _ => destruct (Hsave j1) as (_ & _ & _ & ->) end.
  cbn. by rewrite (get_job_event_hit IdNone _ _ H1).
Qed.

Lemma factory_job_event_is_None_event_witness :
  (save_keeps (save_as oid1) ∧ registry_ok world0 ∧ registry_inj world0
   ∧ rat_host rat1 = Some host1 ∧ py_id_str oid1 ≠ "None")
  ∧ ∃ j w',
      create_rat_command (save_as oid1) rat1 "dir" ∅ world0 = (Ok j, w')
      ∧ job_wakeup_events w' !! "None" = Some (event j)
      ∧ fst (_get_job_event oid1 w') ≠ event j
      ∧ Event_is_set (event j) (wakeup_job oid1 w') = Event_is_set (event j) w'
      ∧ (∀ command' params',
           ∃ j', fst (create_rat_command (save_as oid1) rat1 command' params' w') = Ok j'
                 ∧ event j' = event j).
Proof.
  split.
  - split_and!; [apply save_as_keeps|exact registry_ok_world0|exact registry_inj_world0
                |reflexivity|done].
  - apply (factory_job_event_is_None_event (save_as oid1) rat1 "dir" ∅ world0 host1 oid1
             (save_as_keeps oid1) registry_ok_world0 registry_inj_world0 eq_refl).
    done.
Defined.

(** ** [Operation.delete] *)

Section OperationDeleteProperties.

Variable delete : list doc_ref → doc_ref → ending.

Local Open Scope list_scope.

Ltac went :=
  split_and!; rewrite ?app_nil_r, <- ?app_assoc; cbn; try done.

Lemma delete_each_went (xs calls : list doc_ref) :
  went_through xs calls (fst (delete_each delete xs calls))
    (snd (delete_each delete xs calls)).
Proof.
  revert calls. induction xs as [|x xs IH]; intros calls; cbn.
  - exists [], []. went.
  - destruct (try_delete delete calls x) as [e|]; cbn.
    + exists [x], xs. went.
    + destruct (IH (calls ++ [x])) as (d & rest & Hd & Hc & Hr).
      exists (x :: d), rest.
      split_and!; [by rewrite Hd|by rewrite Hc, <- app_assoc|exact Hr].
Qed.

Lemma delete_known_went (self : Operation) (fields : list string) (calls : list doc_ref) :
  went_through (concat (map (λ field, default [] (op_lists self !! field)) fields)) calls
    (fst (delete_known delete self fields calls))
    (snd (delete_known delete self fields calls)).
Proof.
  revert calls. induction fields as [|f fields IH]; intros calls; cbn.
  - exists [], []. went.
  - pose proof (delete_each_went (default [] (op_lists self !! f)) calls) as H.
    destruct (delete_each delete _ calls) as [c [e|]]; cbn in *.
    + destruct H as (d & rest & Hd & Hc & _).
      exists d, (rest ++ concat (map (λ field, default [] (op_lists self !! field)) fields)).
      split_and!; [by rewrite Hd, <- app_assoc|done|done].
    + destruct H as (d & rest & Hd & Hc & Hr). rewrite (Hr eq_refl), app_nil_r in Hd.
      subst c. destruct (IH (calls ++ d)) as (d' & rest' & Hd' & Hc' & Hr').
      exists (d ++ d'), rest'.
      split_and!; [by rewrite Hd, Hd', <- app_assoc|by rewrite Hc', <- app_assoc|exact Hr'].
Qed.

Lemma delete_jobs_went (jobs : list (doc_ref * string)) (calls : list doc_ref) :
  went_through
    (map fst (List.filter (λ js, str_in (snd js) ["success"; "failed"]) jobs)) calls
    (fst (delete_jobs delete jobs calls)) (snd (delete_jobs delete jobs calls)).
Proof.
  revert calls. induction jobs as [|[job st] jobs IH]; intros calls.
  - exists [], []. cbn. went.
  - cbn [delete_jobs List.filter snd].
    destruct (str_in st ["success"; "failed"]); [|apply IH].
    cbn [map fst]. destruct (try_delete delete calls job) as [e|]; cbn [fst snd].
    + exists [job], (map fst (List.filter (λ js, str_in (snd js) ["success"; "failed"]) jobs)).
      by split_and!.
    + destruct (IH (calls ++ [job])) as (d & rest & Hd & Hc & Hr).
      exists (job :: d), rest.
      split_and!; [by rewrite Hd|by rewrite Hc, <- app_assoc|exact Hr].
Qed.

Lemma Operation_delete_went (self : Operation) :
  ∃ rest, delete_plan self = fst (Operation_delete delete self) ++ rest
          ∧ ((∀ e, snd (Operation_delete delete self) ≠ RaisedOther e) → rest = []).
Proof.
  unfold Operation_delete, delete_plan.
  pose proof (delete_known_went self delete_fields [op_log self]) as Hk.
  remember (concat (map (λ field, default [] (op_lists self !! field)) delete_fields))
    as known eqn:Eknown. clear Eknown.
  destruct (try_delete delete [] (op_log self)) as [e|]; cbn [fst snd].
  { eexists. split; [done|]. intros H. by destruct (H e). }
  destruct (delete_known delete self delete_fields [op_log self]) as [c [e|]];
    cbn [fst snd] in *.
  { destruct Hk as (d & rest & Hd & Hc & _). subst known c.
    eexists. split; [|intros H; by destruct (H e)].
    cbn. by rewrite <- !app_assoc. }
  destruct Hk as (d & rest & Hd & Hc & Hr). rewrite (Hr eq_refl), app_nil_r in Hd.
  subst known c.
  pose proof (delete_jobs_went (op_jobs self) ([op_log self] ++ d)) as Hj.
  remember (map fst (List.filter (λ js, str_in (snd js) ["success"; "failed"])
                       (op_jobs self))) as jobs eqn:Ejobs. clear Ejobs.
  destruct (delete_jobs delete (op_jobs self) ([op_log self] ++ d)) as [c [e|]];
    cbn [fst snd] in *.
  { destruct Hj as (d' & rest' & Hd' & Hc & _). subst jobs c.
    eexists. split; [|intros H; by destruct (H e)].
    cbn. by rewrite <- !app_assoc. }
  destruct Hj as (d' & rest' & Hd' & Hc & Hr'). rewrite (Hr' eq_refl), app_nil_r in Hd'.
  subst jobs c. exists []. split; [|done]. cbn. by rewrite app_nil_r, <- !app_assoc.
Qed.

Lemma delete_each_quiet (xs calls : list doc_ref) :
  (∀ calls x e, delete calls x ≠ RaisedOther e) →
  delete_each delete xs calls = (calls ++ xs, None).
Proof.
  intros Hq. revert calls. induction xs as [|x xs IH]; intros calls; cbn.
  - by rewrite app_nil_r.
  - unfold try_delete. pose proof (Hq calls x) as Hx.
    destruct (delete calls x); [| |by destruct (Hx e)]; rewrite IH; by rewrite <- app_assoc.
Qed.

Lemma delete_known_quiet (self : Operation) (fields : list string) (calls : list doc_ref) :
  (∀ calls x e, delete calls x ≠ RaisedOther e) →
  delete_known delete self fields calls
  = (calls ++ concat (map (λ field, default [] (op_lists self !! field)) fields), None).
Proof.
  intros Hq. revert calls. induction fields as [|f fields IH]; intros calls; cbn.
  - by rewrite app_nil_r.
  - rewrite (delete_each_quiet _ _ Hq), IH. by rewrite <- app_assoc.
Qed.

Lemma delete_jobs_quiet (jobs : list (doc_ref * string)) (calls : list doc_ref) :
  (∀ calls x e, delete calls x ≠ RaisedOther e) →
  delete_jobs delete jobs calls
  = (calls ++ map fst (List.filter (λ js, str_in (snd js) ["success"; "failed"]) jobs),
     None).
Proof.
  intros Hq. revert calls. induction jobs as [|[job st] jobs IH]; intros calls.
  - cbn. by rewrite app_nil_r.
  - cbn [delete_jobs List.filter snd].
    destruct (str_in st ["success"; "failed"]); [|apply IH].
    unfold try_delete. pose proof (Hq calls job) as Hx. cbn [map fst].
    destruct (delete calls job); [| |by destruct (Hx e)]; rewrite IH; by rewrite <- app_assoc.
Qed.

(** X17: [Operation.delete] goes down one list in order: the log, the
    members of the fourteen listed fields, the jobs that succeeded or
    failed, the operation itself. What it has called [delete()] on is
    always a beginning of that list, and all of it unless an exception
    other than the two it catches got out. *)
Theorem Operation_delete_follows_plan (self : Operation) :
  fst (Operation_delete delete self) `prefix_of` delete_plan self
  ∧ ((∀ e, snd (Operation_delete delete self) ≠ RaisedOther e) →
     fst (Operation_delete delete self) = delete_plan self).
Proof.
  destruct (Operation_delete_went self) as (rest & Hplan & Hall). split.
  - by exists rest.
  - intros H. rewrite Hplan, (Hall H). by rewrite app_nil_r.
Qed.

(** X18: [DoesNotExist] and [FieldDoesNotExist] never stop the deletion:
    when no call raises anything else, every document of the list is
    gone through and the method ends the way the final [super().delete()]
    ends. *)
Theorem Operation_delete_swallows (self : Operation) :
  (∀ calls x e, delete calls x ≠ RaisedOther e) →
  ∃ body,
    delete_plan self = body ++ [op_self self]
    ∧ Operation_delete delete self
      = (delete_plan self, delete body (op_self self)).
Proof.
  intros Hq. unfold Operation_delete, delete_plan, try_delete.
  pose proof (Hq [] (op_log self)) as Hlog.
  rewrite (delete_known_quiet _ _ _ Hq), (delete_jobs_quiet _ _ Hq).
  generalize (concat (map (λ field, default [] (op_lists self !! field)) delete_fields)).
  generalize (map fst (List.filter (λ js, str_in (snd js) ["success"; "failed"])
                         (op_jobs self))).
  intros jobs known. exists (op_log self :: known ++ jobs).
  split; [by rewrite <- app_comm_cons, <- app_assoc|].
  destruct (delete [] (op_log self)); [| |by destruct (Hlog e)];
    by rewrite <- !app_comm_cons, <- !app_assoc.
Qed.

(** X19: [delete()] is called on nothing but the log, the members of
    the listed fields, jobs whose status is ['success'] or ['failed'], and
    the operation: a job that is still ['created'] or ['pending'] is left
    in the database, and so are the members of the fields that are not
    listed. *)
Theorem Operation_delete_spares (self : Operation) (x : doc_ref) :
  x ∈ fst (Operation_delete delete self) →
  x = op_log self
  ∨ (∃ field, field ∈ delete_fields ∧ x ∈ default [] (op_lists self !! field))
  ∨ (∃ st, (x, st) ∈ op_jobs self ∧ (st = "success" ∨ st = "failed"))
  ∨ x = op_self self.
Proof.
  intros Hx. destruct (Operation_delete_went self) as (rest & Hplan & _).
  assert (x ∈ delete_plan self) as Hin by (rewrite Hplan; apply elem_of_app; by left).
  unfold delete_plan in Hin.
  apply elem_of_cons in Hin as [->|Hin]; [by left|]. right.
  apply elem_of_app in Hin as [Hin|Hin].
  - left. apply list_elem_of_In, in_concat in Hin as (l & Hl & Hxl).
    apply in_map_iff in Hl as (field & <- & Hf).
    exists field. split; by apply list_elem_of_In.
  - right. apply elem_of_app in Hin as [Hin|Hin].
    + left. apply list_elem_of_In, in_map_iff in Hin as ([y st] & <- & Hy).
      apply filter_In in Hy as [Hy Hst]. apply list_elem_of_In in Hy.
      exists st. split; [done|]. cbn in Hst.
      destruct (String.eqb_spec st "success"); [by left|].
      destruct (String.eqb_spec st "failed"); [by right|done].
    + right. by apply list_elem_of_singleton in Hin.
Qed.

End OperationDeleteProperties.

Lemma Operation_delete_swallows_witness :
  (∀ calls x e, delete1 calls x ≠ RaisedOther e)
  ∧ Operation_delete delete1 operation1 = ([2; 10; 30; 32; 1], Returned).
Proof.
  assert (∀ calls x e, delete1 calls x ≠ RaisedOther e) as Hq.
  { intros calls x e. unfold delete1. by destruct (Nat.eqb x 10). }
  split; [exact Hq|].
  destruct (Operation_delete_swallows delete1 operation1 Hq) as (body & Hplan & Hrun).
  rewrite Hrun. reflexivity.
Defined.

Lemma Operation_delete_spares_witness :
  30 ∈ fst (Operation_delete delete1 operation1)
  ∧ (30 = op_log operation1
     ∨ (∃ field, field ∈ delete_fields
                 ∧ 30 ∈ default [] (op_lists operation1 !! field))
     ∨ (∃ st, (30, st) ∈ op_jobs operation1 ∧ (st = "success" ∨ st = "failed"))
     ∨ 30 = op_self operation1).
Proof.
  assert (30 ∈ fst (Operation_delete delete1 operation1)) as Hin.
  { cbn. apply elem_of_cons. right. apply elem_of_cons. right. apply elem_of_cons. by left. }
  split; [exact Hin|].
  apply (Operation_delete_spares delete1 operation1 30 Hin).
Defined.

(** ** What the waiter itself does to the events *)

Section WaitQuiet.

Variable builtin_str : pyval → string.

Lemma wait_loop_quiet (rounds : list round) (ev : event_ref) (self : Job)
    (w : World) (n : nat) :
  forallb quiet rounds = true →
  let w' := wo_world (wait_loop builtin_str rounds ev self w n) in
  job_wakeup_events w' = job_wakeup_events w
  ∧ (∀ e, e ≠ ev → Event_is_set e w' = Event_is_set e w)
  ∧ (Event_is_set ev w' = Some true → Event_is_set ev w = Some true).
Proof.
  revert self w n. induction rounds as [|r rounds IH]; intros self w n Hq; cbn; [done|].
  cbn in Hq. apply andb_prop in Hq as [Hr Hq]. unfold quiet in Hr.
  destruct (others r); [|done]. cbn.
  repeat case_match; cbn; try done.
  destruct (IH (reload r self) (Event_clear ev w) (S n) Hq) as (H1 & H2 & H3).
  split_and!.
  - by rewrite H1.
  - intros e He. rewrite (H2 e He). unfold Event_is_set. cbn.
    by apply list_lookup_insert_ne.
  - intros Hset. apply H3 in Hset. unfold Event_is_set in Hset. cbn in Hset.
    apply list_lookup_insert_Some in Hset as [(_ & [=] & _)|[Hne _]]. done.
Qed.

(** X20: left to itself, a waiter adds nothing to the registry but the
    entry of its own identifier, changes the flag of no event but its
    own, and never sets its own event: setting is [wakeup_job]'s work
    alone. *)
Theorem wait_till_completed_own_event_only (rounds : list round) (self : Job)
    (w : World) :
  forallb quiet rounds = true →
  let ev := fst (_get_job_event (id self) w) in
  let w' := wo_world (wait_till_completed builtin_str rounds self w) in
  (job_wakeup_events w' = job_wakeup_events w
   ∨ job_wakeup_events w' = <[py_id_str (id self) := ev]> (job_wakeup_events w))
  ∧ (∀ e, e ≠ ev → Event_is_set e w' = Event_is_set e w)
  ∧ (Event_is_set ev w' = Some true → Event_is_set ev w = Some true).
Proof.
  intros Hq ev w'. subst ev w'. unfold wait_till_completed.
  case_match; [by split_and!; [left|..]|].
  destruct (job_wakeup_events w !! py_id_str (id self)) as [e0|] eqn:Hk.
  - rewrite (get_job_event_hit _ _ _ Hk). cbn.
    destruct (wait_loop_quiet rounds e0 self w 0 Hq) as (H1 & H2 & H3).
    split_and!; [by left|done..].
  - rewrite (get_job_event_miss _ _ Hk). cbn.
    destruct (wait_loop_quiet rounds (length (events w)) self
                (mkWorld (<[py_id_str (id self) := length (events w)]> (job_wakeup_events w))
                   (events w ++ [false])%list) 0 Hq) as (H1 & H2 & H3).
    cbn in *. split_and!; [by right| |].
    + intros e He. rewrite (H2 e He). unfold Event_is_set. cbn.
      destruct (decide (e < length (events w))) as [Hlt|Hge].
      * by apply lookup_app_l.
      * rewrite !lookup_ge_None_2; [done|lia|rewrite length_app; cbn; lia].
    + intros Hset. apply H3 in Hset. unfold Event_is_set in Hset. cbn in Hset.
      by rewrite lookup_app_r, Nat.sub_diag in Hset.
Qed.

End WaitQuiet.

Lemma wait_till_completed_own_event_only_witness :
  forallb quiet [mkRound [] "pending" act_execute; round_no_client] = true
  ∧ ∀ e, e ≠ fst (_get_job_event (id job_pending) (wakeup_job IdNone world0)) →
         Event_is_set e
           (wo_world (wait_till_completed str_of_constant
                        [mkRound [] "pending" act_execute; round_no_client]
                        job_pending (wakeup_job IdNone world0)))
         = Event_is_set e (wakeup_job IdNone world0).
Proof.
  split; [reflexivity|].
  apply (wait_till_completed_own_event_only str_of_constant
           [mkRound [] "pending" act_execute; round_no_client]
           job_pending (wakeup_job IdNone world0) eq_refl).
Defined.
